(** * Lumina Design AI: a shallow embedding of the front-end logic

    The development follows the three source files of the repository:

    - [src/services/geminiService.ts]: the two remote collaborators
      (image generation and the design advisor chat) and the module-level
      [chatSession] handle;
    - [src/App.tsx]: the React component state and its event handlers
      [handleFileUpload], [handleStyleSelect] and [handleSendMessage];
    - [src/components/CompareSlider.tsx]: the before/after slider.

    An [async] handler is cut at each [await]: the synchronous prefix runs
    when the event is handled, the suspended rest is kept in a list of
    pending continuations together with the values its closure captured,
    and it runs when the awaited promise settles.  Calls that leave the
    program (to the generative model, to the chat session) are appended to
    a log, so that "contacts no collaborator" is a statement about the
    log. *)

From Stdlib Require Import List Bool NArith ZArith Lia String Ascii DecimalString.
From Stdlib Require Import Floats.
From Stdlib Require DecimalPos DecimalN.
Import ListNotations.

Set Implicit Arguments.

(** ** JavaScript strings

    A JavaScript string is a sequence of UTF-16 code units. *)
Module JsString.

Definition jstr : Type := list N.

Definition lit (s : string) : jstr :=
  map N_of_ascii (list_ascii_of_string s).

Definition jstr_eqb (a b : jstr) : bool :=
  if list_eq_dec N.eq_dec a b then true else false.

(** ECMAScript [WhiteSpace] and [LineTerminator] code points, the ones
    [String.prototype.trim] removes.  All of them are in the basic
    plane, so they are single code units. *)
Definition isWhiteSpace (c : N) : bool :=
  ((c =? 9) || (c =? 10) || (c =? 11) || (c =? 12) || (c =? 13)
   || (c =? 32) || (c =? 160) || (c =? 5760)
   || ((8192 <=? c) && (c <=? 8202))
   || (c =? 8232) || (c =? 8233) || (c =? 8239) || (c =? 8287)
   || (c =? 12288) || (c =? 65279))%N.

Fixpoint trimStart (s : jstr) : jstr :=
  match s with
  | c :: s' => if isWhiteSpace c then trimStart s' else s
  | [] => []
  end.

Definition trimEnd (s : jstr) : jstr := rev (trimStart (rev s)).

Definition trim (s : jstr) : jstr := trimEnd (trimStart s).

(** Truthiness of a string: only the empty string is falsy. *)
Definition truthy (s : jstr) : bool :=
  match s with [] => false | _ :: _ => true end.

(** Truthiness of a [string | null] (or [string | undefined]) value. *)
Definition truthy_opt (o : option jstr) : bool :=
  match o with Some s => truthy s | None => false end.

(** A value of unknown type spliced into a template literal; the model
    keeps the two cases the code can meet, a string and [undefined]. *)
Definition templ (o : option jstr) : jstr :=
  match o with Some s => s | None => lit "undefined" end.

(** [n.toString()] for a non-negative integer. *)
Definition toString (n : N) : jstr :=
  lit (NilZero.string_of_uint (N.to_uint n)).

Definition dquote : jstr := [34%N].

End JsString.
Import JsString.

(** ** types.ts *)

Inductive Role := user | model.

Record ChatMessage := mkChatMessage {
  id : jstr;
  role : Role;
  text : jstr;
  isError : option bool          (* isError?: boolean *)
}.

Record DesignStyle := mkDesignStyle {
  style_id : jstr;
  name : jstr;
  prompt : jstr;
  previewColor : jstr
}.

(** A thrown value.  No handler of the program looks inside it. *)
Inductive exn := Rejected | TypeError | NoImageGenerated.

Definition result (A : Type) : Type := (exn + A)%type.

(** ** services/geminiService.ts *)
Module geminiService.

(** *** The generative model's answer, as far as the code reads it *)
Record InlineData := { data : option jstr }.
Record Part := { inlineData : option InlineData }.
(** [candidate.content.parts]; [None] when [content] or [parts] is
    missing, where the loop throws a [TypeError]. *)
Record Candidate := { content_parts : option (list Part) }.
Record GenerateContentResponse := { candidates : option (list Candidate) }.

Definition dataUrl (d : InlineData) : jstr :=
  lit "data:image/jpeg;base64," ++ templ (data d).

Fixpoint firstInline (ps : list Part) : option InlineData :=
  match ps with
  | [] => None
  | p :: ps' =>
      match inlineData p with
      | Some d => Some d
      | None => firstInline ps'
      end
  end.

(** The two nested [for ... of] loops of [generateReimaginedImage]. *)
Fixpoint scanCandidates (cs : list Candidate) : result jstr :=
  match cs with
  | [] => inl NoImageGenerated
  | c :: cs' =>
      match content_parts c with
      | None => inl TypeError
      | Some ps =>
          match firstInline ps with
          | Some d => inr (dataUrl d)
          | None => scanCandidates cs'
          end
      end
  end.

(** [\w] of a regular expression without the unicode flag. *)
Definition isWordChar (c : N) : bool :=
  (((48 <=? c) && (c <=? 57)) || ((65 <=? c) && (c <=? 90))
   || (c =? 95) || ((97 <=? c) && (c <=? 122)))%N.

Fixpoint stripPrefix (p s : jstr) : option jstr :=
  match p, s with
  | [], _ => Some s
  | a :: p', b :: s' => if (a =? b)%N then stripPrefix p' s' else None
  | _ :: _, [] => None
  end.

Fixpoint dropWordChars (s : jstr) : jstr :=
  match s with
  | c :: s' => if isWordChar c then dropWordChars s' else s
  | [] => []
  end.

(** [base64Data]: the argument without a leading
    [data:image/<word>;base64,] header, or the argument itself when it
    has none.  A semicolon is no word character, so the greedy [\w+]
    can only match the whole run of word characters. *)
Definition base64Data (originalImageBase64 : jstr) : jstr :=
  match stripPrefix (lit "data:image/") originalImageBase64 with
  | Some (c :: rest) =>
      if isWordChar c then
        match stripPrefix (lit ";base64,") (dropWordChars rest) with
        | Some payload => payload
        | None => originalImageBase64
        end
      else originalImageBase64
  | _ => originalImageBase64
  end.

(** What the promise of [generateReimaginedImage] settles to, from what
    the promise of [ai.models.generateContent] settled to.  The [catch]
    logs and rethrows. *)
Definition generateReimaginedImage_settle
    (r : result GenerateContentResponse) : result jstr :=
  match r with
  | inl e => inl e
  | inr response =>
      scanCandidates
        (match candidates response with Some cs => cs | None => [] end)
  end.

(** *** The chat session's answer *)
Record ToolArgs := { visualDescription : option jstr }.
Record FunctionCall := { call_name : jstr; call_args : option ToolArgs }.
Record ResponseObj := { response_text : option jstr }.
Record SendMessageResult := {
  functionCalls : option (list FunctionCall);
  response : option ResponseObj
}.

Record ToolCall := { tc_name : jstr; tc_args : option ToolArgs }.

Record ChatResponse := {
  cr_text : option jstr;          (* text?: string *)
  toolCall : option ToolCall      (* toolCall?: { name; args } *)
}.

(** What the promise of [sendMessageToAdvisor] settles to, from what
    [chatSession.sendMessage] settled to. *)
Definition sendMessageToAdvisor_settle
    (r : result SendMessageResult) : result ChatResponse :=
  match r with
  | inl e => inl e
  | inr res =>
      match functionCalls res with
      | Some (call :: _) =>
          inr {| cr_text := None;
                 toolCall := Some {| tc_name := call_name call;
                                     tc_args := call_args call |} |}
      | _ =>
          match response res with
          | None => inl TypeError
          | Some ro => inr {| cr_text := response_text ro; toolCall := None |}
          end
      end
  end.

(** The chat session object made by [ai.chats.create]: it is opaque to
    the program, the model keeps the history it was created with. *)
Record ChatSession := { created_with : list (Role * jstr) }.

(** Calls that leave the program: [GenerateImage src prompt] stands for
    [generateReimaginedImage(src, prompt)], which sends [prompt] and
    [base64Data src] to the image model. *)
Inductive Call :=
| GenerateImage (sourceImage : jstr) (textPrompt : option jstr)
| ChatsCreate (history : list (Role * jstr))
| ChatSendMessage (message : jstr).

End geminiService.
Import geminiService.

(** ** App.tsx *)
Module App.

Definition STYLES : list DesignStyle :=
  [ {| style_id := lit "modern"; name := lit "Modern";
       previewColor := lit "#3b82f6";
       prompt := lit "Redesign this room in a sleek Modern style with minimalist furniture, clean lines, and neutral colors with blue accents." |};
    {| style_id := lit "scandi"; name := lit "Scandinavian";
       previewColor := lit "#14b8a6";
       prompt := lit "Redesign this room in Scandinavian style, light wood, cozy textures, white walls, airy atmosphere." |};
    {| style_id := lit "industrial"; name := lit "Industrial";
       previewColor := lit "#64748b";
       prompt := lit "Redesign this room in Industrial style, exposed brick, metal accents, leather furniture, raw finishes." |};
    {| style_id := lit "boho"; name := lit "Bohemian";
       previewColor := lit "#f59e0b";
       prompt := lit "Redesign this room in Bohemian style, plants, patterns, eclectic furniture, warm lighting, cozy rugs." |};
    {| style_id := lit "midcen"; name := lit "Mid-Century";
       previewColor := lit "#d97706";
       prompt := lit "Redesign this room in Mid-Century Modern style, teak wood, organic curves, retro colors, statement lighting." |} ].

(** The six [useState] cells of the component. *)
Record State := mkState {
  originalImage : option jstr;
  generatedImage : option jstr;
  isGenerating : bool;
  chatHistory : list ChatMessage;
  chatInput : jstr;
  isChatLoading : bool
}.

(** A handler suspended at an [await] (or a [FileReader] that was
    started), with what its closure still uses afterwards. *)
Inductive Pending :=
| AwaitFileReader                          (* readAsDataURL, line 57 *)
| AwaitStyleImage (style : DesignStyle)    (* handleStyleSelect, line 68 *)
| AwaitAdvisor (capturedImage : jstr)      (* handleSendMessage, line 96 *)
| AwaitChatImage.                          (* handleSendMessage, line 113 *)

(** The component state, the module-level [chatSession] of the service,
    the suspended handlers and the log of outgoing calls. *)
Record World := mkWorld {
  ui : State;
  chatSession : option ChatSession;
  pending : list Pending;
  calls : list Call
}.

Definition initialState : State :=
  {| originalImage := None; generatedImage := None; isGenerating := false;
     chatHistory := []; chatInput := []; isChatLoading := false |}.

Definition initialWorld : World :=
  {| ui := initialState; chatSession := None; pending := []; calls := [] |}.

(** *** State setters *)
Definition onUi (f : State -> State) (w : World) : World :=
  {| ui := f (ui w); chatSession := chatSession w;
     pending := pending w; calls := calls w |}.

Definition setOriginalImage (v : option jstr) : World -> World :=
  onUi (fun s =>
    {| originalImage := v; generatedImage := generatedImage s;
       isGenerating := isGenerating s; chatHistory := chatHistory s;
       chatInput := chatInput s; isChatLoading := isChatLoading s |}).

Definition setGeneratedImage (v : option jstr) : World -> World :=
  onUi (fun s =>
    {| originalImage := originalImage s; generatedImage := v;
       isGenerating := isGenerating s; chatHistory := chatHistory s;
       chatInput := chatInput s; isChatLoading := isChatLoading s |}).

Definition setIsGenerating (v : bool) : World -> World :=
  onUi (fun s =>
    {| originalImage := originalImage s; generatedImage := generatedImage s;
       isGenerating := v; chatHistory := chatHistory s;
       chatInput := chatInput s; isChatLoading := isChatLoading s |}).

(** [setChatHistory] with an updater function [prev => ...]. *)
Definition setChatHistory (f : list ChatMessage -> list ChatMessage)
  : World -> World :=
  onUi (fun s =>
    {| originalImage := originalImage s; generatedImage := generatedImage s;
       isGenerating := isGenerating s; chatHistory := f (chatHistory s);
       chatInput := chatInput s; isChatLoading := isChatLoading s |}).

Definition setChatInput (v : jstr) : World -> World :=
  onUi (fun s =>
    {| originalImage := originalImage s; generatedImage := generatedImage s;
       isGenerating := isGenerating s; chatHistory := chatHistory s;
       chatInput := v; isChatLoading := isChatLoading s |}).

Definition setIsChatLoading (v : bool) : World -> World :=
  onUi (fun s =>
    {| originalImage := originalImage s; generatedImage := generatedImage s;
       isGenerating := isGenerating s; chatHistory := chatHistory s;
       chatInput := chatInput s; isChatLoading := v |}).

(** [prev => [...prev, m1, ..., mk]] *)
Definition append (ms : list ChatMessage) : World -> World :=
  setChatHistory (fun prev => prev ++ ms).

Definition setChatSession (v : option ChatSession) (w : World) : World :=
  {| ui := ui w; chatSession := v; pending := pending w; calls := calls w |}.

Definition suspend (p : Pending) (w : World) : World :=
  {| ui := ui w; chatSession := chatSession w;
     pending := pending w ++ [p]; calls := calls w |}.

Definition emit (c : Call) (w : World) : World :=
  {| ui := ui w; chatSession := chatSession w;
     pending := pending w; calls := calls w ++ [c] |}.

(** *** geminiService, the parts that touch the world *)

Definition resetChatSession : World -> World := setChatSession None.

(** [generateReimaginedImage] up to its [await]. *)
Definition generateReimaginedImage
    (originalImageBase64 : jstr) (textPrompt : option jstr)
  : World -> World :=
  emit (GenerateImage originalImageBase64 textPrompt).

(** [sendMessageToAdvisor] up to its [await]: the session is created on
    first use, from the history handed in. *)
Definition sendMessageToAdvisor
    (message : jstr) (history : list ChatMessage) (w : World) : World :=
  let w :=
    match chatSession w with
    | Some _ => w
    | None =>
        let h := map (fun m => (role m, text m)) history in
        emit (ChatsCreate h)
             (setChatSession (Some {| created_with := h |}) w)
    end in
  emit (ChatSendMessage message) w.

(** *** Messages *)
Definition say (i : jstr) (r : Role) (t : jstr) : ChatMessage :=
  {| id := i; role := r; text := t; isError := None |}.

Definition welcome : ChatMessage :=
  say (lit "init") model
      (lit "Hi! I'm your AI Interior Design Consultant. Upload a photo of your room, select a style, or tell me how you'd like to reimagine your space!").

Definition generatingMsg (now : N) (style : DesignStyle) : ChatMessage :=
  say (toString now) model
      (lit "Generating " ++ name style ++ lit " design...").

Definition styleDoneMsg (now : N) (style : DesignStyle) : ChatMessage :=
  say (toString now) model
      (lit "Here is a " ++ name style
       ++ lit " take on your room! Use the slider to compare. You can refine this further by chatting with me below.").

Definition styleFailedMsg (now : N) : ChatMessage :=
  say (toString now) model
      (lit "Sorry, I had trouble generating that image. Please try again.").

Definition uploadFirstMsg (now : N) : ChatMessage :=
  say (toString (now + 1)) model
      (lit "Please upload an image of your room first so I can help you design it!").

Definition updatingMsg (now : N) (visual : option jstr) : ChatMessage :=
  say (toString now) model
      (lit "Sure! I'm updating the design: " ++ dquote ++ templ visual ++ dquote).

Definition updatedMsg (now : N) : ChatMessage :=
  say (toString now) model
      (lit "I've updated the visualization based on your request. How does that look?").

Definition chatErrorMsg (now : N) : ChatMessage :=
  {| id := toString now; role := model;
     text := lit "I encountered an error. Please try again.";
     isError := Some true |}.

(** *** handleFileUpload *)

(** The [change] handler: starts the reader when a file was picked. *)
Definition handleFileUpload (file : bool) (w : World) : World :=
  if file then suspend AwaitFileReader w else w.

(** [reader.onload] *)
Definition reader_onload (result : jstr) (w : World) : World :=
  resetChatSession
    (setChatHistory (fun _ => [welcome])
       (setGeneratedImage None
          (setOriginalImage (Some result) w))).

(** *** handleStyleSelect *)

(** [originalImage] when it is truthy. *)
Definition activeImage (w : World) : option jstr :=
  match originalImage (ui w) with
  | Some img => if truthy img then Some img else None
  | None => None
  end.

Definition handleStyleSelect (style : DesignStyle) (now : N) (w : World)
  : World :=
  match activeImage w with
  | None => w
  | Some img =>
      let w := setIsGenerating true w in
      let w := append [generatingMsg now style] w in
      suspend (AwaitStyleImage style)
        (generateReimaginedImage img (Some (prompt style)) w)
  end.

(** The rest of [handleStyleSelect], once the image promise settled. *)
Definition handleStyleSelect_resume
    (style : DesignStyle) (r : result jstr) (now : N) (w : World) : World :=
  let w :=
    match r with
    | inr res =>
        append [styleDoneMsg now style] (setGeneratedImage (Some res) w)
    | inl _ =>
        append [styleFailedMsg now] w
    end in
  setIsGenerating false w.

(** *** handleSendMessage *)

(** The [catch] block followed by the [finally] block. *)
Definition chat_catch (now : N) (w : World) : World :=
  setIsChatLoading false
    (setIsGenerating false (append [chatErrorMsg now] w)).

Definition handleSendMessage (now now' : N) (w : World) : World :=
  if negb (truthy (trim (chatInput (ui w)))) then w
  else
    match activeImage w with
    | None =>
        setChatInput []
          (append [ say (toString now) user (chatInput (ui w));
                    uploadFirstMsg now' ] w)
    | Some img =>
        let userMsg := say (toString now) user (chatInput (ui w)) in
        let history := chatHistory (ui w) in
        let w := append [userMsg] w in
        let w := setChatInput [] w in
        let w := setIsChatLoading true w in
        suspend (AwaitAdvisor img)
          (sendMessageToAdvisor (text userMsg) history w)
    end.

(** The [else if (response.text)] arm and the [finally] block. *)
Definition chat_text (response : ChatResponse) (now : N) (w : World)
  : World :=
  let w :=
    match cr_text response with
    | Some t => if truthy t then append [say (toString now) model t] w else w
    | None => w
    end in
  setIsChatLoading false w.

(** The rest of [handleSendMessage], once the advisor promise settled. *)
Definition handleSendMessage_resume
    (capturedImage : jstr) (r : result ChatResponse) (now : N) (w : World)
  : World :=
  match r with
  | inl _ => chat_catch now w
  | inr response =>
      match toolCall response with
      | Some tc =>
          if jstr_eqb (tc_name tc) (lit "updateRoomDesign") then
            match tc_args tc with
            | None => chat_catch now w
            | Some args =>
                let visual := visualDescription args in
                let w := append [updatingMsg now visual] w in
                let w := setIsGenerating true w in
                suspend AwaitChatImage
                  (generateReimaginedImage capturedImage visual w)
            end
          else chat_text response now w
      | None => chat_text response now w
      end
  end.

(** The rest of [handleSendMessage], once the image promise settled. *)
Definition handleSendMessage_image
    (r : result jstr) (now : N) (w : World) : World :=
  match r with
  | inr newImage =>
      let w := setGeneratedImage (Some newImage) w in
      let w := setIsGenerating false w in
      let w := append [updatedMsg now] w in
      setIsChatLoading false w
  | inl _ => chat_catch now w
  end.

(** *** The event loop *)

(** What an outstanding promise (or reader) settles with. *)
Inductive Settlement :=
| ReaderLoaded (result : jstr)
| ReaderFailed
| ContentSettled (r : result GenerateContentResponse)
| MessageSettled (r : result SendMessageResult).

Definition resume (p : Pending) (v : Settlement) (now : N) (w : World)
  : option World :=
  match p, v with
  | AwaitFileReader, ReaderLoaded res => Some (reader_onload res w)
  | AwaitFileReader, ReaderFailed => Some w
  | AwaitStyleImage style, ContentSettled r =>
      Some (handleStyleSelect_resume style
              (generateReimaginedImage_settle r) now w)
  | AwaitAdvisor img, MessageSettled r =>
      Some (handleSendMessage_resume img
              (sendMessageToAdvisor_settle r) now w)
  | AwaitChatImage, ContentSettled r =>
      Some (handleSendMessage_image
              (generateReimaginedImage_settle r) now w)
  | _, _ => None
  end.

Fixpoint remove_nth {A} (i : nat) (l : list A) : list A :=
  match i, l with
  | _, [] => []
  | O, _ :: l' => l'
  | S i', x :: l' => x :: remove_nth i' l'
  end.

Definition take (i : nat) (w : World) : World :=
  {| ui := ui w; chatSession := chatSession w;
     pending := remove_nth i (pending w); calls := calls w |}.

Inductive Event :=
| FileChosen (file : bool)                    (* input onChange *)
| StartOver                                   (* setOriginalImage(null) *)
| ChatInputChanged (v : jstr)                 (* setChatInput(e.target.value) *)
| StyleClicked (style : DesignStyle) (now : N)
| SendClicked (now now' : N)
| EnterPressed (now now' : N)                 (* handleKeyDown *)
| Settled (i : nat) (v : Settlement) (now : N).

Definition step (e : Event) (w : World) : option World :=
  match e with
  | FileChosen file => Some (handleFileUpload file w)
  | StartOver => Some (setOriginalImage None w)
  | ChatInputChanged v => Some (setChatInput v w)
  | StyleClicked style now => Some (handleStyleSelect style now w)
  | SendClicked now now' => Some (handleSendMessage now now' w)
  | EnterPressed now now' => Some (handleSendMessage now now' w)
  | Settled i v now =>
      match nth_error (pending w) i with
      | Some p => resume p v now (take i w)
      | None => None
      end
  end.

Fixpoint run (es : list Event) (w : World) : option World :=
  match es with
  | [] => Some w
  | e :: es' =>
      match step e w with
      | Some w' => run es' w'
      | None => None
      end
  end.

(** *** What the rendered page lets the user do

    The file input is rendered only while no image is loaded, the
    "Start Over" button and the style buttons only while one is; the
    chat column carries the class [hidden] without an image. *)
Definition hasImage (w : World) : bool := truthy_opt (originalImage (ui w)).

(** [disabled={isGenerating}] on each style button. *)
Definition styleButtonDisabled (w : World) : bool := isGenerating (ui w).

(** [disabled={isChatLoading || isGenerating}] on the chat input. *)
Definition chatInputDisabled (w : World) : bool :=
  isChatLoading (ui w) || isGenerating (ui w).

(** [disabled={!chatInput.trim() || isChatLoading || isGenerating}] *)
Definition sendButtonDisabled (w : World) : bool :=
  negb (truthy (trim (chatInput (ui w))))
  || isChatLoading (ui w) || isGenerating (ui w).

Definition offered (e : Event) (w : World) : bool :=
  match e with
  | FileChosen _ => negb (hasImage w)
  | StartOver => hasImage w
  | ChatInputChanged _ => hasImage w && negb (chatInputDisabled w)
  | StyleClicked _ _ => hasImage w && negb (styleButtonDisabled w)
  | SendClicked _ _ => hasImage w && negb (sendButtonDisabled w)
  | EnterPressed _ _ => hasImage w && negb (chatInputDisabled w)
  | Settled _ _ _ => true
  end.

(** A run in which every user event goes through a control that is
    rendered and enabled at that moment. *)
Fixpoint run_ui (es : list Event) (w : World) : option World :=
  match es with
  | [] => Some w
  | e :: es' =>
      if offered e w then
        match step e w with
        | Some w' => run_ui es' w'
        | None => None
        end
      else None
  end.

Definition isImageRequest (p : Pending) : bool :=
  match p with
  | AwaitStyleImage _ | AwaitChatImage => true
  | _ => false
  end.

(** Image-generation requests that have not settled yet. *)
Definition outstandingGenerations (w : World) : nat :=
  List.length (filter isImageRequest (pending w)).

Definition isGenerateCall (c : Call) : bool :=
  match c with GenerateImage _ _ => true | _ => false end.

Definition isChatCall (c : Call) : bool :=
  match c with ChatsCreate _ | ChatSendMessage _ => true | _ => false end.

Definition flaggedError (m : ChatMessage) : bool :=
  match isError m with Some true => true | _ => false end.

(** Events that leave the session in place: all but "Start Over" and
    the arrival of a newly read file. *)
Definition keepsSession (e : Event) : bool :=
  match e with
  | StartOver => false
  | Settled _ (ReaderLoaded _) _ => false
  | _ => true
  end.

(** The source images of the image requests in a stretch of the log all
    satisfy [ok]. *)
Definition sourcesIn (ok : jstr -> Prop) (cs : list Call) : Prop :=
  forall src p, In (GenerateImage src p) cs -> ok src.

(** A session on [img] whose waiting chat handlers captured, and whose
    requests logged since [base] carry, images that satisfy [ok]. *)
Definition sessionOn (ok : jstr -> Prop) (img : jstr) (base : list Call)
    (w : World) : Prop :=
  originalImage (ui w) = Some img
  /\ (forall c, In (AwaitAdvisor c) (pending w) -> ok c)
  /\ exists recent, calls w = base ++ recent /\ sourcesIn ok recent.

End App.
Import App.

(** ** components/CompareSlider.tsx

    JavaScript numbers are IEEE 754 binary64 values; the model uses the
    primitive floats, whose operations are the same ones. *)
Module CompareSlider.
Local Open Scope float_scope.

(** [Math.max] and [Math.min] of two numbers: a NaN argument gives NaN,
    and the positive zero is larger than the negative one. *)
Definition Math_max (a b : float) : float :=
  if is_nan a || is_nan b then nan
  else if a <? b then b
  else if b <? a then a
  else if get_sign a then b else a.

Definition Math_min (a b : float) : float :=
  if is_nan a || is_nan b then nan
  else if a <? b then a
  else if b <? a then b
  else if get_sign a then a else b.

(** The two fields of [getBoundingClientRect()] the component reads. *)
Record DOMRect := { left : float; width : float }.

Record State := {
  sliderPosition : float;
  isDragging : bool
}.

(** [useState(50)], [useState(false)] *)
Definition initialState : State :=
  {| sliderPosition := 50; isDragging := false |}.

Definition setSliderPosition (v : float) (s : State) : State :=
  {| sliderPosition := v; isDragging := isDragging s |}.

Definition setIsDragging (v : bool) (s : State) : State :=
  {| sliderPosition := sliderPosition s; isDragging := v |}.

(** [current] is the bounding rectangle of [containerRef.current] at the
    time of the call, [None] while the ref is null. *)
Definition handleMove (current : option DOMRect) (clientX : float)
    (s : State) : State :=
  match current with
  | Some rect =>
      let x := Math_max 0 (Math_min (clientX - left rect) (width rect)) in
      let percent := (x / width rect) * 100 in
      setSliderPosition percent s
  | None => s
  end.

Definition handleMouseDown : State -> State := setIsDragging true.
Definition handleTouchStart : State -> State := setIsDragging true.
Definition handleMouseUp : State -> State := setIsDragging false.
Definition handleTouchEnd : State -> State := setIsDragging false.

(** The window listeners of the effect; [touches] are the [clientX] of
    [e.touches], reading [touches[0]] of an empty list throws. *)
Definition handleMouseMove (current : option DOMRect) (clientX : float)
    (s : State) : State :=
  if isDragging s then handleMove current clientX s else s.

Definition handleTouchMove (current : option DOMRect) (touches : list float)
    (s : State) : State :=
  if isDragging s then
    match touches with
    | clientX :: _ => handleMove current clientX s
    | [] => s
    end
  else s.

Inductive Event :=
| MouseDown
| TouchStart
| MouseMove (current : option DOMRect) (clientX : float)
| TouchMove (current : option DOMRect) (touches : list float)
| MouseUp
| TouchEnd.

(** The window listeners are installed only while [isDragging]. *)
Definition step (e : Event) (s : State) : State :=
  match e with
  | MouseDown => handleMouseDown s
  | TouchStart => handleTouchStart s
  | MouseMove current clientX => handleMouseMove current clientX s
  | TouchMove current touches => handleTouchMove current touches s
  | MouseUp => if isDragging s then handleMouseUp s else s
  | TouchEnd => if isDragging s then handleTouchEnd s else s
  end.

Definition drag (es : list Event) (s : State) : State :=
  fold_left (fun s e => step e s) es s.

(** [0 <= p && p <= 100]; false for a NaN. *)
Definition inRange (p : float) : bool := (0 <=? p) && (p <=? 100).

End CompareSlider.

(** ** Sample data used by the concrete runs below *)
Module Samples.

Definition imageA : jstr := lit "data:image/png;base64,AAAA".
Definition imageC : jstr := lit "data:image/png;base64,CCCC".

Definition modern : DesignStyle := nth 0 STYLES (mkDesignStyle [] [] [] []).

(** A model answer carrying one inline image, and the data URL the
    service makes of it. *)
Definition answerB : GenerateContentResponse :=
  {| candidates :=
       Some [ {| content_parts :=
                   Some [ {| inlineData := None |};
                          {| inlineData := Some {| data := Some (lit "BBBB") |} |} ] |} ] |}.

Definition renderB : jstr := lit "data:image/jpeg;base64,BBBB".

Definition answerD : GenerateContentResponse :=
  {| candidates :=
       Some [ {| content_parts :=
                   Some [ {| inlineData := Some {| data := Some (lit "DDDD") |} |} ] |} ] |}.

(** An answer with a candidate but no image part. *)
Definition answerEmpty : GenerateContentResponse :=
  {| candidates := Some [ {| content_parts := Some [ {| inlineData := None |} ] |} ] |}.

Definition blueWalls : jstr := lit "make the walls blue".
Definition blueRoom : jstr := lit "A living room with blue walls".

(** The advisor asks for a visual edit. *)
Definition editReply : SendMessageResult :=
  {| functionCalls :=
       Some [ {| call_name := lit "updateRoomDesign";
                 call_args := Some {| visualDescription := Some blueRoom |} |} ];
     response := None |}.

(** The advisor calls a tool the program does not know. *)
Definition otherToolReply : SendMessageResult :=
  {| functionCalls :=
       Some [ {| call_name := lit "searchFurniture"; call_args := None |} ];
     response := None |}.

(** The advisor answers with neither a tool call nor text. *)
Definition silentReply : SendMessageResult :=
  {| functionCalls := None;
     response := Some {| response_text := None |} |}.

(** A session on [imageA] with one render on display. *)
Definition sessionA : World :=
  setGeneratedImage (Some renderB) (reader_onload imageA initialWorld).

(** The same session with a draft of a space, a tab and a no-break
    space in the chat box. *)
Definition blankDraft : World := setChatInput [32; 9; 160]%N sessionA.

(** The same session after "make the walls blue" was sent: the advisor
    has not answered yet. *)
Definition askedA : World :=
  handleSendMessage 1 1 (setChatInput blueWalls sessionA).

(** A style, then a chat edit, in one session. *)
Definition twoEdits : list Event :=
  [ StyleClicked modern 1;
    Settled 0 (ContentSettled (inr answerB)) 2;
    ChatInputChanged blueWalls;
    SendClicked 3 3;
    Settled 0 (MessageSettled (inr editReply)) 4;
    Settled 0 (ContentSettled (inr answerD)) 5 ].

(** Upload A, pick "Modern", start over and upload C while the request
    is in flight, then the request resolves with render B. *)
Definition staleRun : list Event :=
  [ FileChosen true; Settled 0 (ReaderLoaded imageA) 0;
    StyleClicked modern 1;
    StartOver;
    FileChosen true; Settled 1 (ReaderLoaded imageC) 2;
    Settled 0 (ContentSettled (inr answerB)) 3 ].

(** Upload A and send a message; while the advisor is thinking, pick
    "Modern"; then the advisor asks for a visual edit. *)
Definition chatThenStyle : list Event :=
  [ FileChosen true; Settled 0 (ReaderLoaded imageA) 0;
    ChatInputChanged blueWalls;
    SendClicked 1 1 ].

Definition overlapRun : list Event :=
  chatThenStyle
    ++ [ StyleClicked modern 2;
         Settled 0 (MessageSettled (inr editReply)) 3 ].

(** Before any upload, with a single space typed. *)
Definition spaceDraft : World := setChatInput [32%N] initialWorld.

(** Before any upload, with a real message typed. *)
Definition earlyDraft : World := setChatInput blueWalls initialWorld.

End Samples.

(** ** Further definitions, for the properties of the whole program *)

(** [sendToolResult]: the one line that runs before the comments, and
    the [return] after them.  The function sends nothing. *)
Definition sendToolResult (toolName resultStatus : jstr) (w : World) : jstr :=
  match chatSession w with
  | None => lit "Session expired"
  | Some _ => lit "Design updated."
  end.

(** A candidate the loops of [generateReimaginedImage] pass over: it has
    parts, and none of them is an inline image. *)
Definition passedOver (c : Candidate) : bool :=
  match content_parts c with
  | Some ps => match firstInline ps with None => true | Some _ => false end
  | None => false
  end.

(** Chat messages that have not run to their end yet. *)
Definition isChatHandler (p : Pending) : bool :=
  match p with
  | AwaitAdvisor _ | AwaitChatImage => true
  | _ => false
  end.

Definition chatsInFlight (w : World) : nat :=
  List.length (filter isChatHandler (pending w)).

(** The images the reader delivered in a sequence of events. *)
Fixpoint uploads (es : list Event) : list jstr :=
  match es with
  | [] => []
  | Settled _ (ReaderLoaded img) _ :: es' => img :: uploads es'
  | _ :: es' => uploads es'
  end.

Definition isReaderLoad (e : Event) : bool :=
  match e with
  | Settled _ (ReaderLoaded _) _ => true
  | _ => false
  end.

(** The presses that start a drag of the slider. *)
Definition isPress (e : CompareSlider.Event) : bool :=
  match e with
  | CompareSlider.MouseDown | CompareSlider.TouchStart => true
  | _ => false
  end.

(** The reply the service makes of [Samples.editReply]. *)
Definition editResponse : ChatResponse :=
  {| cr_text := None;
     toolCall :=
       Some {| tc_name := lit "updateRoomDesign";
               tc_args := Some {| visualDescription := Some Samples.blueRoom |} |} |}.

(** The advisor answers in words. *)
Definition adviceReply : SendMessageResult :=
  {| functionCalls := None;
     response := Some {| response_text := Some (lit "Try a navy rug.") |} |}.

(** A raised flag has something in flight behind it. *)
Definition flagsBacked (w : World) : Prop :=
  (isGenerating (ui w) = true -> (1 <= outstandingGenerations w)%nat)
  /\ (isChatLoading (ui w) = true -> (1 <= chatsInFlight w)%nat).

(** Exactly the chat messages the flag accounts for are in flight. *)
Definition oneChat (w : World) : Prop :=
  chatsInFlight w = (if isChatLoading (ui w) then 1 else 0)%nat.

(** Every image the program holds or has sent as a source is one of
    [U] and is a non-empty string. *)
Definition fromUploads (U : list jstr) (w : World) : Prop :=
  (forall img, originalImage (ui w) = Some img -> In img U)
  /\ (forall c, In (AwaitAdvisor c) (pending w) -> In c U /\ truthy c = true)
  /\ (forall src p, In (GenerateImage src p) (calls w) ->
        In src U /\ truthy src = true).

(** The chat calls of a session so far: none, with no chat session; or
    one creation followed by messages only, with the session it made. *)
Definition chatLog (recent : list Call) (w : World) : Prop :=
  (filter isChatCall recent = [] /\ chatSession w = None)
  \/ exists h msgs,
       filter isChatCall recent = ChatsCreate h :: map ChatSendMessage msgs
       /\ chatSession w = Some {| created_with := h |}.

(** * Properties *)

(** ** Strings *)

Lemma trimStart_blank (s : jstr) :
  Forall (fun c => isWhiteSpace c = true) s -> trimStart s = [].
Proof.
  induction 1 as [| c s Hc _ IH]; simpl.
  - reflexivity.
  - rewrite Hc. exact IH.
Qed.

Lemma trim_blank (s : jstr) :
  Forall (fun c => isWhiteSpace c = true) s -> trim s = [].
Proof.
  intros H. unfold trim, trimEnd.
  rewrite (trimStart_blank H). reflexivity.
Qed.

Lemma jstr_eqb_eq (a b : jstr) : jstr_eqb a b = true <-> a = b.
Proof.
  unfold jstr_eqb. destruct (list_eq_dec N.eq_dec a b); split; congruence.
Qed.

Lemma jstr_eqb_neq (a b : jstr) : a <> b -> jstr_eqb a b = false.
Proof.
  unfold jstr_eqb. destruct (list_eq_dec N.eq_dec a b); congruence.
Qed.

Example base64Data_imageA :
  base64Data Samples.imageA = lit "AAAA"
  /\ base64Data (lit "AAAA") = lit "AAAA"
  /\ base64Data (lit "data:image/;base64,AAAA") = lit "data:image/;base64,AAAA".
Proof.
  repeat split; vm_compute; reflexivity.
Qed.

(** ** Sessions *)

Lemma activeImage_hasImage (w : World) :
  hasImage w = false <-> activeImage w = None.
Proof.
  unfold hasImage, activeImage, truthy_opt.
  destruct (originalImage (ui w)) as [img |]; [destruct (truthy img) |];
    split; congruence.
Qed.

Lemma activeImage_some (w : World) (img : jstr) :
  activeImage w = Some img ->
  originalImage (ui w) = Some img /\ truthy img = true.
Proof.
  unfold activeImage.
  destruct (originalImage (ui w)) as [i |]; [| discriminate].
  destruct (truthy i) eqn:E; [| discriminate].
  intros [= <-]. split; [reflexivity | exact E].
Qed.

Lemma activeImage_intro (w : World) (img : jstr) :
  originalImage (ui w) = Some img -> truthy img = true ->
  activeImage w = Some img.
Proof.
  unfold activeImage. intros -> ->. reflexivity.
Qed.

(** ** C10: a blank draft *)

(** C10. When the chat box holds the empty string or only white space,
    [handleSendMessage] returns at its first line: the component state,
    the chat session, the suspended handlers and the log of outgoing
    calls are all what they were, with or without an image loaded. *)
Theorem blank_message_is_noop (w : World) (now now' : N) :
  Forall (fun c => isWhiteSpace c = true) (chatInput (ui w)) ->
  handleSendMessage now now' w = w.
Proof.
  intros H. unfold handleSendMessage.
  rewrite (trim_blank H). reflexivity.
Qed.

Lemma blank_message_is_noop_witness :
  Forall (fun c => isWhiteSpace c = true) (chatInput (ui Samples.blankDraft))
  /\ handleSendMessage 7 8 Samples.blankDraft = Samples.blankDraft.
Proof.
  assert (H : Forall (fun c => isWhiteSpace c = true)
                (chatInput (ui Samples.blankDraft))).
  { simpl. repeat constructor. }
  split; [exact H | exact (blank_message_is_noop Samples.blankDraft 7 8 H)].
Defined.

(** ** C7: a message before any upload *)

(** C7, as stated, at a draft of one space: the draft is not the empty
    string and no image is loaded, yet no turn is appended. *)
Lemma space_before_upload_appends_nothing :
  chatInput (ui Samples.spaceDraft) <> []
  /\ hasImage Samples.spaceDraft = false
  /\ chatHistory (ui (handleSendMessage 1 2 Samples.spaceDraft)) = [].
Proof.
  split; [discriminate |]. split; reflexivity.
Qed.

(** C7, amended. When the draft is not blank (something is left after
    trimming) and no image is loaded, [handleSendMessage] appends exactly
    two turns, the user's turn with the draft as typed and then the
    request to upload a photo; it logs no outgoing call, suspends nothing
    and leaves the chat session alone. *)
Theorem message_before_upload (w : World) (now now' : N) :
  truthy (trim (chatInput (ui w))) = true ->
  hasImage w = false ->
  chatHistory (ui (handleSendMessage now now' w))
    = chatHistory (ui w)
        ++ [ say (toString now) user (chatInput (ui w)); uploadFirstMsg now' ]
  /\ role (uploadFirstMsg now') = model
  /\ calls (handleSendMessage now now' w) = calls w
  /\ pending (handleSendMessage now now' w) = pending w
  /\ chatSession (handleSendMessage now now' w) = chatSession w.
Proof.
  intros Ht Hi. apply activeImage_hasImage in Hi.
  unfold handleSendMessage. rewrite Ht, Hi. simpl.
  repeat split.
Qed.

Lemma message_before_upload_witness :
  chatHistory (ui (handleSendMessage 1 2 Samples.earlyDraft))
    = [ say (toString 1) user Samples.blueWalls; uploadFirstMsg 2 ]
  /\ calls (handleSendMessage 1 2 Samples.earlyDraft) = [].
Proof.
  destruct (message_before_upload Samples.earlyDraft 1 2
              eq_refl eq_refl) as (H & _ & C & _).
  split; [exact H | exact C].
Defined.

(** ** C8: a new upload *)

(** C8. When the reader hands over a new image, whatever the state was:
    [originalImage] is that image, the history is the single welcome turn
    of the assistant, [generatedImage] is null and the chat session
    handle is null.  The next message of the new session therefore
    creates a chat session, seeded with the welcome turn alone. *)
Theorem upload_starts_fresh_session (w : World) (img : jstr) :
  originalImage (ui (reader_onload img w)) = Some img
  /\ chatHistory (ui (reader_onload img w)) = [welcome]
  /\ role welcome = model
  /\ generatedImage (ui (reader_onload img w)) = None
  /\ chatSession (reader_onload img w) = None
  /\ forall (draft : jstr) (now now' : N),
       truthy img = true ->
       truthy (trim draft) = true ->
       chatSession
         (handleSendMessage now now' (setChatInput draft (reader_onload img w)))
         = Some {| created_with := [(model, text welcome)] |}
       /\ calls
            (handleSendMessage now now' (setChatInput draft (reader_onload img w)))
          = calls w ++ [ ChatsCreate [(model, text welcome)];
                         ChatSendMessage draft ].
Proof.
  repeat (split; [reflexivity |]).
  intros draft now now' Hi Ht.
  unfold handleSendMessage.
  change (chatInput (ui (setChatInput draft (reader_onload img w))))
    with draft.
  rewrite Ht.
  rewrite (@activeImage_intro _ img) by (reflexivity || exact Hi).
  simpl. rewrite <- app_assoc. split; reflexivity.
Qed.

Lemma upload_starts_fresh_session_witness :
  generatedImage (ui (reader_onload Samples.imageC Samples.sessionA)) = None
  /\ calls (handleSendMessage 5 5
              (setChatInput Samples.blueWalls
                 (reader_onload Samples.imageC Samples.sessionA)))
     = [ ChatsCreate [(model, text welcome)];
         ChatSendMessage Samples.blueWalls ].
Proof.
  destruct (upload_starts_fresh_session Samples.sessionA Samples.imageC)
    as (_ & _ & _ & G & _ & F).
  split; [exact G |].
  exact (proj2 (F Samples.blueWalls 5%N 5%N eq_refl eq_refl)).
Defined.

(** ** C6 and C5: a style request that fails *)

Lemma generatedImage_handleStyleSelect (style : DesignStyle) (now : N)
    (w : World) :
  generatedImage (ui (handleStyleSelect style now w)) = generatedImage (ui w).
Proof.
  unfold handleStyleSelect. destruct (activeImage w); reflexivity.
Qed.

Lemma pending_handleStyleSelect (style : DesignStyle) (now : N) (w : World)
    (img : jstr) :
  activeImage w = Some img ->
  pending (handleStyleSelect style now w) = pending w ++ [AwaitStyleImage style].
Proof.
  unfold handleStyleSelect. intros ->. reflexivity.
Qed.

Lemma nth_error_last {A} (l : list A) (x : A) :
  nth_error (l ++ [x]) (List.length l) = Some x.
Proof.
  induction l; simpl; auto.
Qed.

Lemma remove_nth_last {A} (l : list A) (x : A) :
  remove_nth (List.length l) (l ++ [x]) = l.
Proof.
  induction l; simpl; congruence.
Qed.

(** C6. A style is picked in a world with an image loaded, and the
    request it issues fails, whether the model's promise rejects or its
    answer holds no image: the handler runs to its end and
    [generatedImage] is what it was before the click, null included.
    Without an image the click does nothing at all. *)
Theorem failed_style_keeps_render (w : World) (style : DesignStyle)
    (now now' : N) (r : result GenerateContentResponse) (e : exn) :
  generateReimaginedImage_settle r = inl e ->
  (activeImage w = None -> handleStyleSelect style now w = w)
  /\ (forall img, activeImage w = Some img ->
      exists w',
        run [ StyleClicked style now;
              Settled (List.length (pending w)) (ContentSettled r) now' ] w
          = Some w'
        /\ generatedImage (ui w') = generatedImage (ui w)
        /\ pending w' = pending w).
Proof.
  intros Hr. split.
  - unfold handleStyleSelect. intros ->. reflexivity.
  - intros img Hi. simpl.
    rewrite (pending_handleStyleSelect style now w Hi), nth_error_last.
    simpl. rewrite Hr. eexists. split; [reflexivity |].
    unfold handleStyleSelect. rewrite Hi. simpl.
    rewrite remove_nth_last. split; reflexivity.
Qed.

Lemma failed_style_keeps_render_witness :
  exists w',
    run [ StyleClicked Samples.modern 1;
          Settled 0 (ContentSettled (inr Samples.answerEmpty)) 2 ]
        Samples.sessionA = Some w'
    /\ generatedImage (ui w') = Some Samples.renderB.
Proof.
  destruct (failed_style_keeps_render Samples.sessionA Samples.modern 1 2
              (inr Samples.answerEmpty) (e := NoImageGenerated) eq_refl)
    as [_ H].
  destruct (H Samples.imageA eq_refl) as (w' & R & G & _).
  exists w'. split; [exact R | exact G].
Defined.

(** What the failure path of [handleStyleSelect] appends: one turn, with
    no [isError] field. *)
Lemma failed_style_turn (style : DesignStyle) (e : exn) (now : N) (w : World) :
  chatHistory (ui (handleStyleSelect_resume style (inl e) now w))
    = chatHistory (ui w) ++ [styleFailedMsg now]
  /\ isError (styleFailedMsg now) = None
  /\ isGenerating (ui (handleStyleSelect_resume style (inl e) now w)) = false.
Proof.
  repeat split.
Qed.

(** C5, evaluated. An image is uploaded, "Modern" is picked and the
    model's promise rejects: the history is the welcome turn, the
    "Generating" turn and the apology, none of them flagged [isError]
    (the apology of [handleStyleSelect] carries no such field, while the
    [catch] of [handleSendMessage] sets it), and [isGenerating] is false. *)
Theorem rejected_style_turn_is_not_flagged :
  exists w,
    run_ui [ FileChosen true; Settled 0 (ReaderLoaded Samples.imageA) 0;
             StyleClicked Samples.modern 1;
             Settled 0 (ContentSettled (inl Rejected)) 2 ] initialWorld
      = Some w
    /\ chatHistory (ui w)
       = [ welcome; generatingMsg 1 Samples.modern; styleFailedMsg 2 ]
    /\ filter flaggedError (chatHistory (ui w)) = []
    /\ flaggedError (chatErrorMsg 2) = true
    /\ isGenerating (ui w) = false.
Proof.
  eexists. split; [vm_compute; reflexivity |].
  repeat split; vm_compute; reflexivity.
Qed.

(** ** C9: a reply the handler has no arm for *)

(** A reply of the service that carries a tool call carries no text. *)
Lemma settle_toolCall_no_text (r : result SendMessageResult)
    (reply : ChatResponse) (tc : ToolCall) :
  sendMessageToAdvisor_settle r = inr reply ->
  toolCall reply = Some tc -> cr_text reply = None.
Proof.
  unfold sendMessageToAdvisor_settle.
  destruct r as [e | res]; [discriminate |].
  destruct (functionCalls res) as [[| call calls] |].
  - destruct (response res); [| discriminate]. intros [= <-]. discriminate.
  - intros [= <-]. reflexivity.
  - destruct (response res); [| discriminate]. intros [= <-]. discriminate.
Qed.

Lemma chat_text_silent (reply : ChatResponse) (now : N) (w : World) :
  truthy_opt (cr_text reply) = false ->
  chat_text reply now w = setIsChatLoading false w.
Proof.
  unfold chat_text, truthy_opt.
  destruct (cr_text reply) as [t |]; [| reflexivity].
  intros ->. reflexivity.
Qed.

(** C9. The advisor's promise resolves with a reply that carries a tool
    call named otherwise than [updateRoomDesign], or neither a tool call
    nor a (non-empty) text.  Then the suspended [handleSendMessage] runs
    to its end, appends no turn, logs no outgoing call and suspends
    nothing new, and [isChatLoading] is false afterwards. *)
Theorem unhandled_reply_is_dropped (w : World) (i : nat) (img : jstr)
    (r : result SendMessageResult) (reply : ChatResponse) (now : N) :
  nth_error (pending w) i = Some (AwaitAdvisor img) ->
  sendMessageToAdvisor_settle r = inr reply ->
  (exists tc, toolCall reply = Some tc /\ tc_name tc <> lit "updateRoomDesign")
  \/ (toolCall reply = None /\ truthy_opt (cr_text reply) = false) ->
  exists w',
    step (Settled i (MessageSettled r) now) w = Some w'
    /\ chatHistory (ui w') = chatHistory (ui w)
    /\ calls w' = calls w
    /\ pending w' = remove_nth i (pending w)
    /\ generatedImage (ui w') = generatedImage (ui w)
    /\ isGenerating (ui w') = isGenerating (ui w)
    /\ isChatLoading (ui w') = false.
Proof.
  intros Hp Hr Hshape. simpl. rewrite Hp. simpl. rewrite Hr.
  eexists. split; [reflexivity |].
  unfold handleSendMessage_resume.
  destruct Hshape as [(tc & Htc & Hname) | (Htc & Htext)]; rewrite Htc.
  - rewrite (jstr_eqb_neq Hname).
    rewrite chat_text_silent
      by (rewrite (settle_toolCall_no_text _ Hr Htc); reflexivity).
    repeat split.
  - rewrite (chat_text_silent _ _ _ Htext). repeat split.
Qed.

Lemma unhandled_reply_is_dropped_witness :
  (exists w',
     step (Settled 0 (MessageSettled (inr Samples.otherToolReply)) 2)
          Samples.askedA = Some w'
     /\ chatHistory (ui w') = chatHistory (ui Samples.askedA)
     /\ isChatLoading (ui w') = false)
  /\ (exists w',
     step (Settled 0 (MessageSettled (inr Samples.silentReply)) 2)
          Samples.askedA = Some w'
     /\ chatHistory (ui w') = chatHistory (ui Samples.askedA)
     /\ isChatLoading (ui w') = false).
Proof.
  split.
  - destruct (@unhandled_reply_is_dropped Samples.askedA 0 Samples.imageA
                (inr Samples.otherToolReply) _ 2 eq_refl eq_refl)
      as (w' & S & H & _ & _ & _ & _ & L).
    + left. eexists. split; [reflexivity | discriminate].
    + exists w'. repeat split; assumption.
  - destruct (@unhandled_reply_is_dropped Samples.askedA 0 Samples.imageA
                (inr Samples.silentReply) _ 2 eq_refl eq_refl)
      as (w' & S & H & _ & _ & _ & _ & L).
    + right. split; reflexivity.
    + exists w'. repeat split; assumption.
Defined.

(** ** C1: a request that outlives its session *)

(** C1, as stated, on a run the page allows.  Image A is uploaded and
    "Modern" is picked; before the request resolves the user starts over
    and uploads image C; then the request resolves with render B.  The
    session is on C and shows B. *)
Lemma stale_render_shown_in_new_session :
  exists w,
    run_ui Samples.staleRun initialWorld = Some w
    /\ originalImage (ui w) = Some Samples.imageC
    /\ generatedImage (ui w) = Some Samples.renderB
    /\ generatedImage (ui w) <> None.
Proof.
  eexists. split; [vm_compute; reflexivity |].
  split; [reflexivity |]. split; [reflexivity | discriminate].
Qed.

(** C1, amended.  An image request (of a style or of a chat edit) is in
    flight when the reader hands over a new image.  The upload clears
    [generatedImage]; no handler compares sessions, so when the request
    then settles its continuation runs on the new session: with an image
    in the answer, [generatedImage] becomes that image; with a failure it
    stays null.  [originalImage] is the new image either way. *)
Theorem stale_request_settles_on_new_session (w : World) (i : nat)
    (p : Pending) (img : jstr) (r : result GenerateContentResponse)
    (now : N) :
  nth_error (pending w) i = Some p ->
  isImageRequest p = true ->
  generatedImage (ui (reader_onload img w)) = None
  /\ exists w',
       step (Settled i (ContentSettled r) now) (reader_onload img w) = Some w'
       /\ originalImage (ui w') = Some img
       /\ generatedImage (ui w')
          = match generateReimaginedImage_settle r with
            | inr render => Some render
            | inl _ => None
            end.
Proof.
  intros Hp Hk. split; [reflexivity |].
  simpl. rewrite Hp.
  destruct p as [| style | c |]; try discriminate Hk; simpl;
    destruct (generateReimaginedImage_settle r);
    eexists; repeat split.
Qed.

Lemma stale_request_settles_on_new_session_witness :
  exists w',
    step (Settled 0 (ContentSettled (inr Samples.answerB)) 3)
         (reader_onload Samples.imageC
            (handleStyleSelect Samples.modern 1 Samples.sessionA)) = Some w'
    /\ originalImage (ui w') = Some Samples.imageC
    /\ generatedImage (ui w') = Some Samples.renderB.
Proof.
  destruct (@stale_request_settles_on_new_session
              (handleStyleSelect Samples.modern 1 Samples.sessionA) 0
              (AwaitStyleImage Samples.modern) Samples.imageC
              (inr Samples.answerB) 3 eq_refl eq_refl)
    as (_ & w' & S & O & G).
  exists w'. repeat split; assumption.
Defined.

(** ** C4: which controls are disabled when *)

(** The chat controls are disabled while either flag is up. *)
Lemma chat_controls_disabled_when_busy (w : World) :
  isGenerating (ui w) = true \/ isChatLoading (ui w) = true ->
  chatInputDisabled w = true /\ sendButtonDisabled w = true.
Proof.
  unfold chatInputDisabled, sendButtonDisabled.
  intros [-> | ->]; rewrite ?orb_true_r; auto.
Qed.

(** The style buttons look at [isGenerating] alone. *)
Lemma style_buttons_ignore_chat_loading (w : World) :
  isGenerating (ui w) = false -> styleButtonDisabled w = false.
Proof.
  unfold styleButtonDisabled. auto.
Qed.

(** C4, evaluated.  After an upload and a sent message the advisor is
    awaited: [isChatLoading] is true, the chat controls are disabled, the
    style buttons are not.  "Modern" is then picked through its enabled
    button, and when the advisor answers with a visual edit a second
    image request is issued while the first has not settled: two
    requests are outstanding in one session. *)
Theorem style_button_enabled_while_chat_loading :
  (exists w,
     run_ui Samples.chatThenStyle initialWorld = Some w
     /\ isChatLoading (ui w) = true
     /\ chatInputDisabled w = true
     /\ sendButtonDisabled w = true
     /\ styleButtonDisabled w = false
     /\ outstandingGenerations w = 0%nat)
  /\ (exists w,
     run_ui Samples.overlapRun initialWorld = Some w
     /\ originalImage (ui w) = Some Samples.imageA
     /\ pending w = [AwaitStyleImage Samples.modern; AwaitChatImage]
     /\ outstandingGenerations w = 2%nat
     /\ filter isGenerateCall (calls w)
        = [ GenerateImage Samples.imageA (Some (prompt Samples.modern));
            GenerateImage Samples.imageA (Some Samples.blueRoom) ]).
Proof.
  split; eexists; (split; [vm_compute; reflexivity |]);
    repeat split; vm_compute; reflexivity.
Qed.

(** ** C3: the divider position

    Orders on binary64 values come from the specification of the
    primitive comparisons; a NaN compares with nothing. *)
Section Floats.
Import CompareSlider.
Local Open Scope float_scope.

Lemma SFcompare_antisym (x y : spec_float) :
  SFcompare y x = option_map CompOpp (SFcompare x y).
Proof.
  destruct x as [sx | sx | | sx mx ex], y as [sy | sy | | sy my ey];
    simpl; try reflexivity;
    try (destruct sx; reflexivity); try (destruct sy; reflexivity);
    try (destruct sx, sy; reflexivity).
  destruct sx, sy; simpl; try reflexivity;
    rewrite (Z.compare_antisym ex ey);
    destruct (ex ?= ey)%Z; simpl; try reflexivity;
    rewrite (Pos.compare_cont_antisym mx my Eq); simpl;
    destruct (Pos.compare_cont Eq mx my); reflexivity.
Qed.

Lemma ltb_asym (a b : float) : (a <? b) = true -> (b <? a) = false.
Proof.
  rewrite !ltb_spec. unfold SFltb.
  rewrite (SFcompare_antisym (Prim2SF a) (Prim2SF b)).
  destruct (SFcompare (Prim2SF a) (Prim2SF b)) as [[| |] |];
    simpl; congruence.
Qed.

Lemma ltb_leb (a b : float) : (a <? b) = true -> (a <=? b) = true.
Proof.
  rewrite ltb_spec, leb_spec. unfold SFltb, SFleb.
  destruct (SFcompare (Prim2SF a) (Prim2SF b)) as [[| |] |]; congruence.
Qed.

Lemma is_nan_false (a : float) :
  is_nan a = false -> Prim2SF a <> S754_nan.
Proof.
  unfold is_nan. rewrite eqb_spec. intros H E. rewrite E in H. discriminate.
Qed.




(** With a width of zero [handleMove] stores a NaN, for every pointer,
    every left edge and every earlier position: the clamped offset is a
    zero or a NaN, and it is divided by zero. *)
Lemma zero_width_always_nan (left clientX : float) (s : State) :
  is_nan (sliderPosition
            (handleMove (Some {| left := left; width := 0 |}) clientX s))
  = true.
Proof.
  simpl. generalize (clientX - left). intros d.
  unfold Math_min.
  destruct (is_nan d) eqn:Hn; [vm_compute; reflexivity |].
  change (is_nan 0) with false. simpl orb. cbv iota.
  destruct (d <? 0) eqn:Hlt.
  - unfold Math_max. rewrite Hn. change (is_nan 0) with false.
    simpl orb. cbv iota.
    rewrite (ltb_asym Hlt), Hlt. vm_compute; reflexivity.
  - destruct (0 <? d) eqn:Hgt; [vm_compute; reflexivity |].
    destruct (get_sign d); [| vm_compute; reflexivity].
    unfold Math_max. rewrite Hn. change (is_nan 0) with false.
    simpl orb. cbv iota.
    rewrite Hgt, Hlt. vm_compute; reflexivity.
Qed.



End Floats.

(** C3, evaluated.  A drag over a container of width zero: the clamped
    offset is 0, the division is 0 / 0, and the position becomes NaN,
    which is not within [0, 100].  With a positive width the same
    pointers give 0, 25 and 100. *)
Theorem zero_width_position_is_nan :
  let flat := Some {| CompareSlider.left := 0; CompareSlider.width := 0 |} in
  let wide := Some {| CompareSlider.left := 20; CompareSlider.width := 300 |} in
  let pos es := CompareSlider.sliderPosition
                  (CompareSlider.drag es CompareSlider.initialState) in
  is_nan (pos [CompareSlider.MouseDown; CompareSlider.MouseMove flat 10]) = true
  /\ is_nan (pos [CompareSlider.MouseDown; CompareSlider.MouseMove flat (-5)]) = true
  /\ is_nan (pos [CompareSlider.TouchStart; CompareSlider.TouchMove flat [0%float]]) = true
  /\ CompareSlider.inRange
       (pos [CompareSlider.MouseDown; CompareSlider.MouseMove flat 10]) = false
  /\ pos [CompareSlider.MouseDown; CompareSlider.MouseMove wide (-5)] = 0%float
  /\ pos [CompareSlider.MouseDown; CompareSlider.MouseMove wide 95] = 25%float
  /\ pos [CompareSlider.MouseDown; CompareSlider.MouseMove wide 1000] = 100%float.
Proof.
  cbv zeta. repeat split; vm_compute; reflexivity.
Qed.

(** ** C2: the source image of every request *)

Lemma In_remove_nth {A} (x : A) (i : nat) (l : list A) :
  In x (remove_nth i l) -> In x l.
Proof.
  revert i. induction l as [| y l IH]; intros [| i]; simpl; auto.
  intros [-> | H]; eauto.
Qed.

Section Session.

(** [ok] holds of the session's image and of whatever else the waiting
    chat handlers may have captured. *)
Variable ok : jstr -> Prop.
Variable img : jstr.
Variable base : list Call.
Hypothesis ok_img : ok img.

Let inv := sessionOn ok img base.

Lemma sourcesIn_app (cs ds : list Call) :
  sourcesIn ok cs -> sourcesIn ok ds -> sourcesIn ok (cs ++ ds).
Proof.
  unfold sourcesIn. intros Hc Hd src p H.
  apply in_app_or in H. destruct H; eauto.
Qed.

Lemma sourcesIn_one (c : Call) :
  (forall src p, c = GenerateImage src p -> ok src) -> sourcesIn ok [c].
Proof.
  intros H src p [E | []]. eauto.
Qed.

(** The invariant survives a change of the component state that keeps
    [originalImage]. *)
Lemma sessionOn_onUi (f : State -> State) (w : World) :
  originalImage (f (ui w)) = originalImage (ui w) ->
  inv w -> inv (onUi f w).
Proof.
  intros Hf (Ho & Hp & Hc). repeat split; simpl.
  - rewrite Hf. exact Ho.
  - exact Hp.
  - exact Hc.
Qed.

Lemma sessionOn_take (i : nat) (w : World) : inv w -> inv (take i w).
Proof.
  intros (Ho & Hp & Hc). repeat split; simpl; auto.
  intros c H. apply Hp. eapply In_remove_nth. exact H.
Qed.

Lemma sessionOn_suspend (p : Pending) (w : World) :
  (forall c, p = AwaitAdvisor c -> ok c) -> inv w -> inv (suspend p w).
Proof.
  intros Hn (Ho & Hp & Hc). repeat split; simpl; auto.
  intros c H. apply in_app_or in H. destruct H as [H | [H | []]]; auto.
Qed.

Lemma sessionOn_emit (c : Call) (w : World) :
  (forall src p, c = GenerateImage src p -> ok src) ->
  inv w -> inv (emit c w).
Proof.
  intros Hn (Ho & Hp & recent & Hc & Hs). repeat split; simpl; auto.
  exists (recent ++ [c]). rewrite Hc, app_assoc. split; [reflexivity |].
  apply sourcesIn_app; [exact Hs | apply sourcesIn_one; exact Hn].
Qed.

Lemma sessionOn_setChatSession (v : option ChatSession) (w : World) :
  inv w -> inv (setChatSession v w).
Proof.
  intros (Ho & Hp & Hc). repeat split; simpl; auto.
Qed.

Ltac session :=
  repeat first
    [ assumption
    | apply sessionOn_suspend; [intros ? [=]; subst; assumption |]
    | apply sessionOn_emit; [intros ? ? [=]; subst; assumption |]
    | apply sessionOn_setChatSession
    | apply sessionOn_onUi; [reflexivity |]
    | apply sessionOn_take ].

Lemma sessionOn_chat_catch (now : N) (w : World) :
  inv w -> inv (chat_catch now w).
Proof.
  intros H. unfold chat_catch, setIsChatLoading, setIsGenerating, append,
    setChatHistory. session.
Qed.

Lemma sessionOn_chat_text (reply : ChatResponse) (now : N) (w : World) :
  inv w -> inv (chat_text reply now w).
Proof.
  intros H. unfold chat_text, setIsChatLoading, append, setChatHistory.
  destruct (cr_text reply) as [t |]; [destruct (truthy t) |]; session.
Qed.

(** The style path reads [originalImage] of the state. *)
Lemma sessionOn_handleStyleSelect (style : DesignStyle) (now : N)
    (w : World) :
  inv w -> inv (handleStyleSelect style now w).
Proof.
  intros H. unfold handleStyleSelect.
  destruct (activeImage w) as [i |] eqn:E; [| exact H].
  apply activeImage_some in E. destruct E as [E _].
  assert (i = img) as -> by (destruct H as [Ho _]; congruence).
  unfold generateReimaginedImage, append, setChatHistory, setIsGenerating.
  session.
Qed.

(** The chat path captures [originalImage] of the state for later. *)
Lemma sessionOn_handleSendMessage (now now' : N) (w : World) :
  inv w -> inv (handleSendMessage now now' w).
Proof.
  intros H. unfold handleSendMessage.
  destruct (negb (truthy (trim (chatInput (ui w))))); [exact H |].
  destruct (activeImage w) as [i |] eqn:E.
  - apply activeImage_some in E. destruct E as [E _].
    assert (i = img) as -> by (destruct H as [Ho _]; congruence).
    unfold sendMessageToAdvisor. simpl.
    destruct (chatSession w);
      unfold setIsChatLoading, setChatInput, append, setChatHistory;
      session.
  - unfold setChatInput, append, setChatHistory. session.
Qed.

(** The chat path, resumed, passes on what it captured. *)
Lemma sessionOn_handleSendMessage_resume (c : jstr)
    (r : result ChatResponse) (now : N) (w : World) :
  ok c -> inv w -> inv (handleSendMessage_resume c r now w).
Proof.
  intros Hc H. unfold handleSendMessage_resume.
  destruct r as [e | reply]; [apply sessionOn_chat_catch; exact H |].
  destruct (toolCall reply) as [tc |];
    [| apply sessionOn_chat_text; exact H].
  destruct (jstr_eqb (tc_name tc) (lit "updateRoomDesign"));
    [| apply sessionOn_chat_text; exact H].
  destruct (tc_args tc) as [args |];
    [| apply sessionOn_chat_catch; exact H].
  unfold generateReimaginedImage, setIsGenerating, append, setChatHistory.
  session.
Qed.

(** One event that keeps the session keeps the invariant. *)
Lemma step_sessionOn (e : Event) (w w' : World) :
  keepsSession e = true -> inv w -> step e w = Some w' -> inv w'.
Proof.
  intros Hk H.
  destruct e as [file | | v | style now | now now' | now now' | i v now];
    simpl; try discriminate Hk.
  - intros [= <-]. unfold handleFileUpload. destruct file; session.
  - intros [= <-]. unfold setChatInput. session.
  - intros [= <-]. apply sessionOn_handleStyleSelect; exact H.
  - intros [= <-]. apply sessionOn_handleSendMessage; exact H.
  - intros [= <-]. apply sessionOn_handleSendMessage; exact H.
  - destruct (nth_error (pending w) i) as [p |] eqn:Ep; [| discriminate].
    assert (Ht : inv (take i w)) by session.
    destruct p as [| style | c |], v as [res | | r | r];
      simpl; try discriminate; intros [= <-].
    + exact Ht.
    + unfold handleStyleSelect_resume.
      destruct (generateReimaginedImage_settle r);
        unfold setIsGenerating, append, setChatHistory, setGeneratedImage;
        session.
    + apply sessionOn_handleSendMessage_resume; [| exact Ht].
      destruct H as (_ & Hp & _). apply Hp.
      eapply nth_error_In. exact Ep.
    + unfold handleSendMessage_image.
      destruct (generateReimaginedImage_settle r);
        [apply sessionOn_chat_catch; exact Ht |].
      unfold setIsChatLoading, setIsGenerating, append, setChatHistory,
        setGeneratedImage.
      session.
Qed.

Lemma run_sessionOn (es : list Event) :
  forall w w',
    forallb keepsSession es = true -> inv w -> run es w = Some w' -> inv w'.
Proof.
  induction es as [| e es IH]; simpl; intros w w' Hk H.
  - intros [= <-]. exact H.
  - apply andb_prop in Hk. destruct Hk as [Hk Hks].
    destruct (step e w) as [w1 |] eqn:E; [| discriminate].
    intros Hr. eapply IH; [exact Hks | | exact Hr].
    eapply step_sessionOn; eauto.
Qed.

End Session.

(** Right after an upload the invariant holds, for the new image and the
    images that chat handlers of earlier sessions still hold. *)
Lemma sessionOn_reader_onload (img : jstr) (w : World) :
  sessionOn (fun c => c = img \/ In (AwaitAdvisor c) (pending w))
            img (calls w) (reader_onload img w).
Proof.
  repeat split; simpl.
  - intros c H. right. exact H.
  - exists []. rewrite app_nil_r. split; [reflexivity |].
    intros src p [].
Qed.

(** Whatever was going on before the upload: a request logged in the new
    session carries the new image, or the image captured by a chat
    message of an earlier session that was still waiting for the advisor
    when the upload came.  A generated image is never a source. *)
Lemma request_sources (w0 : World) (img : jstr) (es : list Event)
    (w : World) :
  forallb keepsSession es = true ->
  run es (reader_onload img w0) = Some w ->
  originalImage (ui w) = Some img
  /\ exists recent,
       calls w = calls w0 ++ recent
       /\ forall src p, In (GenerateImage src p) recent ->
            src = img \/ In (AwaitAdvisor src) (pending w0).
Proof.
  intros Hk Hr.
  destruct (@run_sessionOn _ img (calls w0) (or_introl eq_refl) es _ _ Hk
              (sessionOn_reader_onload img w0) Hr)
    as (Ho & _ & Hc).
  split; [exact Ho | exact Hc].
Qed.

(** C2. A session starts when the reader hands over [img], with no chat
    message of an earlier session still waiting for the advisor.  Then,
    through any sequence of events that neither starts over nor loads
    another file (style picks, drafts, sent messages, promises settling
    in any order, with any answers), [originalImage] stays [img] and
    every image request logged since the upload, from a style or from a
    chat edit, has [img] as its source image, whatever [generatedImage]
    holds. *)
Theorem every_request_uses_original (w0 : World) (img : jstr)
    (es : list Event) (w : World) :
  (forall c, ~ In (AwaitAdvisor c) (pending w0)) ->
  forallb keepsSession es = true ->
  run es (reader_onload img w0) = Some w ->
  originalImage (ui w) = Some img
  /\ exists recent,
       calls w = calls w0 ++ recent
       /\ forall src p, In (GenerateImage src p) recent -> src = img.
Proof.
  intros Hn Hk Hr.
  destruct (request_sources w0 img es Hk Hr) as (Ho & recent & Hc & Hs).
  split; [exact Ho |]. exists recent. split; [exact Hc |].
  intros src p H. destruct (Hs src p H) as [E | E]; [exact E |].
  destruct (Hn src E).
Qed.

Lemma every_request_uses_original_witness :
  exists w,
    run Samples.twoEdits (reader_onload Samples.imageA initialWorld) = Some w
    /\ originalImage (ui w) = Some Samples.imageA
    /\ exists recent,
         calls w = calls initialWorld ++ recent
         /\ forall src p, In (GenerateImage src p) recent -> src = Samples.imageA.
Proof.
  eexists. split; [vm_compute; reflexivity |].
  apply (@every_request_uses_original initialWorld Samples.imageA
           Samples.twoEdits).
  - intros c [].
  - vm_compute; reflexivity.
  - vm_compute; reflexivity.
Defined.

(** The scenario of the specification: [originalImage] is A,
    [generatedImage] is B, the user sends "make the walls blue" and the
    advisor asks for a visual edit; the request goes out with A and the
    advisor's description. *)
Example walls_blue_uses_original :
  exists w,
    run [ ChatInputChanged Samples.blueWalls; SendClicked 3 3;
          Settled 0 (MessageSettled (inr Samples.editReply)) 4 ]
        Samples.sessionA = Some w
    /\ generatedImage (ui w) = Some Samples.renderB
    /\ filter isGenerateCall (calls w)
       = [ GenerateImage Samples.imageA (Some Samples.blueRoom) ].
Proof.
  eexists. split; [vm_compute; reflexivity |].
  split; vm_compute; reflexivity.
Qed.

(** * More of the program *)

(** ** geminiService: the data URL header *)

Lemma stripPrefix_app (p s : jstr) : stripPrefix p (p ++ s) = Some s.
Proof.
  induction p as [| a p IH]; simpl; [reflexivity |].
  rewrite N.eqb_refl. exact IH.
Qed.

Lemma stripPrefix_some (p s r : jstr) :
  stripPrefix p s = Some r -> s = p ++ r.
Proof.
  revert s. induction p as [| a p IH]; intros [| b s]; simpl;
    try discriminate; try (intros [= <-]; reflexivity).
  destruct (N.eqb_spec a b) as [<- |]; [| discriminate].
  intros H. rewrite (IH _ H). reflexivity.
Qed.

Lemma dropWordChars_app (word rest : jstr) :
  forallb isWordChar word = true ->
  dropWordChars (word ++ rest) = dropWordChars rest.
Proof.
  induction word as [| c word IH]; simpl; [reflexivity |].
  intros H. apply andb_prop in H. destruct H as [-> H]. exact (IH H).
Qed.

Lemma dropWordChars_suffix (s : jstr) :
  exists pre, s = pre ++ dropWordChars s.
Proof.
  induction s as [| c s [pre IH]]; simpl.
  - exists []. reflexivity.
  - destruct (isWordChar c).
    + exists (c :: pre). simpl. rewrite <- IH. reflexivity.
    + exists []. reflexivity.
Qed.

(** X1. A source image given as a data URL, [data:image/<type>;base64,]
    followed by a payload, with a type of one or more word characters, is
    sent as the payload alone, whatever the payload is. *)
Theorem base64Data_strips_header (word payload : jstr) :
  word <> [] ->
  forallb isWordChar word = true ->
  base64Data (lit "data:image/" ++ word ++ lit ";base64," ++ payload)
  = payload.
Proof.
  intros Hne Hw. unfold base64Data. rewrite stripPrefix_app.
  destruct word as [| c word]; [congruence |].
  simpl in Hw. apply andb_prop in Hw. destruct Hw as [Hc Hw].
  simpl app. cbv iota. rewrite Hc.
  rewrite (@dropWordChars_app word _ Hw).
  reflexivity.
Qed.

Lemma base64Data_strips_header_witness :
  base64Data (lit "data:image/" ++ lit "png" ++ lit ";base64," ++ lit "AAAA")
  = lit "AAAA".
Proof.
  apply (@base64Data_strips_header (lit "png") (lit "AAAA")).
  - discriminate.
  - vm_compute; reflexivity.
Defined.

(** X2. Whatever the source string, what is sent is a suffix of it: the
    header strip removes a prefix or nothing, it never rewrites the
    payload. *)
Theorem base64Data_is_suffix (s : jstr) :
  exists header, s = header ++ base64Data s.
Proof.
  unfold base64Data.
  destruct (stripPrefix (lit "data:image/") s) as [[| c rest] |] eqn:E;
    try (exists []; reflexivity).
  destruct (isWordChar c); [| exists []; reflexivity].
  destruct (stripPrefix (lit ";base64,") (dropWordChars rest))
    as [payload |] eqn:E2; [| exists []; reflexivity].
  apply stripPrefix_some in E. apply stripPrefix_some in E2.
  destruct (dropWordChars_suffix rest) as [pre Hpre].
  exists (lit "data:image/" ++ c :: pre ++ lit ";base64,").
  rewrite E at 1. rewrite Hpre at 1. rewrite E2.
  rewrite <- !app_assoc. simpl. rewrite <- !app_assoc. reflexivity.
Qed.

(** X3. An image the service returned, handed back to it as the source
    image, is sent as the very data the model had produced: the header
    [generateReimaginedImage] puts on its result is the one it strips
    from its argument. *)
Theorem base64Data_dataUrl (d : InlineData) :
  base64Data (dataUrl d) = templ (data d).
Proof.
  unfold dataUrl, base64Data.
  change (lit "data:image/jpeg;base64,")
    with (lit "data:image/" ++ lit "jpeg;base64,").
  rewrite <- app_assoc, stripPrefix_app.
  reflexivity.
Qed.

(** ** geminiService: reading the model's answer *)

Lemma firstInline_in (ps : list Part) (d : InlineData) :
  firstInline ps = Some d -> exists p, In p ps /\ inlineData p = Some d.
Proof.
  induction ps as [| p ps IH]; simpl; [discriminate |].
  destruct (inlineData p) as [d' |] eqn:E.
  - intros [= <-]. exists p. auto.
  - intros H. destruct (IH H) as (q & Hq & Hd). exists q. auto.
Qed.

Lemma scanCandidates_in (cs : list Candidate) (url : jstr) :
  scanCandidates cs = inr url ->
  exists c ps p d,
    In c cs /\ content_parts c = Some ps /\ In p ps
    /\ inlineData p = Some d /\ url = dataUrl d.
Proof.
  induction cs as [| c cs IH]; simpl; [discriminate |].
  destruct (content_parts c) as [ps |] eqn:Ec; [| discriminate].
  destruct (firstInline ps) as [d |] eqn:Ef.
  - intros [= <-]. destruct (@firstInline_in ps d Ef) as (p & Hp & Hd).
    exists c, ps, p, d. auto.
  - intros H. destruct (IH H) as (c' & ps' & p & d & Hc & R).
    exists c', ps', p, d. auto.
Qed.

(** X4. When [generateReimaginedImage] resolves, the model's promise had
    resolved and the result is the JPEG data URL of an inline image that
    is a part of one of the answer's candidates; the service never makes
    up an image. *)
Theorem generated_image_comes_from_answer
    (r : result GenerateContentResponse) (url : jstr) :
  generateReimaginedImage_settle r = inr url ->
  exists answer cs c ps p d,
    r = inr answer /\ candidates answer = Some cs
    /\ In c cs /\ content_parts c = Some ps /\ In p ps
    /\ inlineData p = Some d
    /\ url = lit "data:image/jpeg;base64," ++ templ (data d).
Proof.
  destruct r as [e | answer]; simpl; [discriminate |].
  destruct (candidates answer) as [cs |] eqn:E; [| discriminate].
  intros H. destruct (@scanCandidates_in cs url H) as (c & ps & p & d & R).
  exists answer, cs, c, ps, p, d. intuition.
Qed.

Lemma generated_image_comes_from_answer_witness :
  exists answer cs c ps p d,
    (inr Samples.answerB : result GenerateContentResponse) = inr answer
    /\ candidates answer = Some cs
    /\ In c cs /\ content_parts c = Some ps /\ In p ps
    /\ inlineData p = Some d
    /\ Samples.renderB = lit "data:image/jpeg;base64," ++ templ (data d).
Proof.
  apply (@generated_image_comes_from_answer (inr Samples.answerB)
           Samples.renderB).
  vm_compute; reflexivity.
Defined.

Lemma scanCandidates_passedOver (pre cs : list Candidate) :
  forallb passedOver pre = true ->
  scanCandidates (pre ++ cs) = scanCandidates cs.
Proof.
  induction pre as [| c pre IH]; simpl; [reflexivity |].
  intros H. apply andb_prop in H. destruct H as [Hc H].
  unfold passedOver in Hc.
  destruct (content_parts c) as [ps |]; [| discriminate].
  destruct (firstInline ps); [discriminate |]. exact (IH H).
Qed.

(** X5. The first inline image wins: when the candidates before [c] all
    have parts and no inline image among them, and [d] is the first
    inline image among the parts of [c], the result is the data URL of
    [d], whatever comes after [c] (more images, or candidates without
    content). *)
Theorem first_inline_image_wins (pre post : list Candidate) (c : Candidate)
    (ps : list Part) (d : InlineData) :
  forallb passedOver pre = true ->
  content_parts c = Some ps ->
  firstInline ps = Some d ->
  generateReimaginedImage_settle
    (inr {| candidates := Some (pre ++ c :: post) |})
  = inr (dataUrl d).
Proof.
  intros Hpre Hc Hd. simpl.
  rewrite (@scanCandidates_passedOver pre _ Hpre). simpl.
  rewrite Hc, Hd. reflexivity.
Qed.

Lemma first_inline_image_wins_witness :
  generateReimaginedImage_settle
    (inr {| candidates :=
              Some ([ {| content_parts := Some [ {| inlineData := None |} ] |} ]
                    ++ {| content_parts :=
                            Some [ {| inlineData := None |};
                                   {| inlineData :=
                                        Some {| data := Some (lit "BBBB") |} |} ] |}
                    :: [ {| content_parts := None |} ]) |})
  = inr (dataUrl {| data := Some (lit "BBBB") |}).
Proof.
  apply (@first_inline_image_wins
           [ {| content_parts := Some [ {| inlineData := None |} ] |} ]
           [ {| content_parts := None |} ]
           {| content_parts :=
                Some [ {| inlineData := None |};
                       {| inlineData := Some {| data := Some (lit "BBBB") |} |} ] |}
           [ {| inlineData := None |};
             {| inlineData := Some {| data := Some (lit "BBBB") |} |} ]
           {| data := Some (lit "BBBB") |}
           eq_refl eq_refl eq_refl).
Defined.

(** X6. The service rejects, and never resolves with an empty or
    placeholder image, in each of these cases: the model's promise
    rejected (the same error is passed on); the answer has no
    candidates field; every candidate has parts but none is an inline
    image. *)
Theorem no_image_rejects :
  (forall e, generateReimaginedImage_settle (inl e) = inl e)
  /\ generateReimaginedImage_settle (inr {| candidates := None |})
     = inl NoImageGenerated
  /\ (forall cs, forallb passedOver cs = true ->
        generateReimaginedImage_settle (inr {| candidates := Some cs |})
        = inl NoImageGenerated).
Proof.
  repeat split. intros cs H. simpl.
  rewrite <- (app_nil_r cs). rewrite (@scanCandidates_passedOver cs [] H).
  reflexivity.
Qed.

Lemma no_image_rejects_witness :
  generateReimaginedImage_settle (inr Samples.answerEmpty)
  = inl NoImageGenerated.
Proof.
  destruct no_image_rejects as (_ & _ & H).
  apply (H [ {| content_parts := Some [ {| inlineData := None |} ] |} ]).
  reflexivity.
Defined.

(** X7. The reply of [sendMessageToAdvisor] has exactly one of two
    shapes.  With at least one function call in the result it is a tool
    call, that of the first function call, and carries no text (the
    other calls and any text of the result are dropped); otherwise it is
    the text of the result's response, without a tool call. *)
Theorem advisor_reply_shape (r : result SendMessageResult)
    (reply : ChatResponse) :
  sendMessageToAdvisor_settle r = inr reply ->
  exists res, r = inr res /\
    ((exists call others,
        functionCalls res = Some (call :: others)
        /\ toolCall reply
           = Some {| tc_name := call_name call; tc_args := call_args call |}
        /\ cr_text reply = None)
     \/ (exists ro,
        (functionCalls res = None \/ functionCalls res = Some [])
        /\ response res = Some ro
        /\ toolCall reply = None
        /\ cr_text reply = response_text ro)).
Proof.
  destruct r as [e | res]; simpl; [discriminate |].
  intros H. exists res. split; [reflexivity |].
  destruct (functionCalls res) as [[| call others] |] eqn:E.
  - destruct (response res) as [ro |]; [| discriminate].
    injection H as <-. right. exists ro. auto.
  - injection H as <-. left. exists call, others. auto.
  - destruct (response res) as [ro |]; [| discriminate].
    injection H as <-. right. exists ro. auto.
Qed.

Lemma advisor_reply_shape_witness :
  exists res,
    (inr Samples.editReply : result SendMessageResult) = inr res /\
    ((exists call others,
        functionCalls res = Some (call :: others)
        /\ toolCall editResponse
           = Some {| tc_name := call_name call; tc_args := call_args call |}
        /\ cr_text editResponse = None)
     \/ (exists ro,
        (functionCalls res = None \/ functionCalls res = Some [])
        /\ response res = Some ro
        /\ toolCall editResponse = None
        /\ cr_text editResponse = response_text ro)).
Proof.
  apply (@advisor_reply_shape (inr Samples.editReply) editResponse).
  reflexivity.
Defined.

(** ** App: one operation from start to end *)

Lemma handleSendMessage_session (w : World) (now now' : N) (img : jstr) :
  truthy (trim (chatInput (ui w))) = true ->
  activeImage w = Some img ->
  handleSendMessage now now' w
  = suspend (AwaitAdvisor img)
      (sendMessageToAdvisor (chatInput (ui w)) (chatHistory (ui w))
         (setIsChatLoading true
            (setChatInput []
               (append [say (toString now) user (chatInput (ui w))] w)))).
Proof.
  intros Ht Hi. unfold handleSendMessage. rewrite Ht, Hi. reflexivity.
Qed.

Lemma sendMessageToAdvisor_frame (message : jstr) (history : list ChatMessage)
    (w : World) :
  ui (sendMessageToAdvisor message history w) = ui w
  /\ pending (sendMessageToAdvisor message history w) = pending w
  /\ filter isGenerateCall (calls (sendMessageToAdvisor message history w))
     = filter isGenerateCall (calls w).
Proof.
  unfold sendMessageToAdvisor.
  destruct (chatSession w); simpl; repeat split;
    rewrite ?filter_app; simpl; rewrite ?app_nil_r; reflexivity.
Qed.

(** What a sent message leaves behind while the advisor is awaited. *)
Lemma message_sent (w : World) (now now' : N) (img : jstr) :
  truthy (trim (chatInput (ui w))) = true ->
  activeImage w = Some img ->
  pending (handleSendMessage now now' w) = pending w ++ [AwaitAdvisor img]
  /\ ui (handleSendMessage now now' w)
     = ui (setIsChatLoading true
             (setChatInput []
                (append [say (toString now) user (chatInput (ui w))] w)))
  /\ filter isGenerateCall (calls (handleSendMessage now now' w))
     = filter isGenerateCall (calls w).
Proof.
  intros Ht Hi. rewrite (handleSendMessage_session w now now' Ht Hi).
  remember (setIsChatLoading true
              (setChatInput []
                 (append [say (toString now) user (chatInput (ui w))] w)))
    as v eqn:Ev.
  destruct (sendMessageToAdvisor_frame (chatInput (ui w)) (chatHistory (ui w)) v)
    as (Hu & Hp & Hc).
  unfold suspend. cbn [ui pending calls]. rewrite Hu, Hp, Hc. subst v.
  repeat split.
Qed.

(** X8. A style picked with an image loaded, whose request resolves with
    an image: the handler runs to its end, [generatedImage] is the new
    image, exactly two turns are appended (the "Generating" notice and
    the confirmation), [isGenerating] is false again, one request went
    out with [originalImage] and the prompt of the style, and nothing
    is left suspended. *)
Theorem style_request_succeeds (w : World) (style : DesignStyle)
    (now now' : N) (r : result GenerateContentResponse) (url img : jstr) :
  activeImage w = Some img ->
  generateReimaginedImage_settle r = inr url ->
  exists w',
    run [ StyleClicked style now;
          Settled (List.length (pending w)) (ContentSettled r) now' ] w
      = Some w'
    /\ generatedImage (ui w') = Some url
    /\ originalImage (ui w') = originalImage (ui w)
    /\ chatHistory (ui w')
       = chatHistory (ui w) ++ [generatingMsg now style; styleDoneMsg now' style]
    /\ isGenerating (ui w') = false
    /\ calls w' = calls w ++ [GenerateImage img (Some (prompt style))]
    /\ pending w' = pending w.
Proof.
  intros Hi Hr. simpl.
  rewrite (@pending_handleStyleSelect style now w img Hi), nth_error_last.
  simpl. rewrite Hr. eexists. split; [reflexivity |].
  unfold handleStyleSelect. rewrite Hi. simpl.
  rewrite remove_nth_last, <- app_assoc. repeat split.
Qed.

Lemma style_request_succeeds_witness :
  exists w',
    run [ StyleClicked Samples.modern 1;
          Settled 0 (ContentSettled (inr Samples.answerD)) 2 ]
        Samples.sessionA = Some w'
    /\ generatedImage (ui w') = Some (lit "data:image/jpeg;base64,DDDD")
    /\ isGenerating (ui w') = false.
Proof.
  destruct (@style_request_succeeds Samples.sessionA Samples.modern 1 2
              (inr Samples.answerD) (lit "data:image/jpeg;base64,DDDD")
              Samples.imageA eq_refl eq_refl)
    as (w' & R & G & _ & _ & F & _).
  exists w'. repeat split; assumption.
Defined.

(** X9. A message sent with an image loaded, answered by the advisor
    with plain text: the handler runs to its end, the history grows by
    the user's turn (the draft as typed) and one assistant turn holding
    the advisor's text, the draft is cleared, [isChatLoading] is false
    again, no image request goes out and neither [generatedImage] nor
    [isGenerating] changes. *)
Theorem text_reply_is_appended (w : World) (now now1 now' : N)
    (r : result SendMessageResult) (img t : jstr) :
  truthy (trim (chatInput (ui w))) = true ->
  activeImage w = Some img ->
  sendMessageToAdvisor_settle r = inr {| cr_text := Some t; toolCall := None |} ->
  truthy t = true ->
  exists w',
    run [ SendClicked now now1;
          Settled (List.length (pending w)) (MessageSettled r) now' ] w
      = Some w'
    /\ chatHistory (ui w')
       = chatHistory (ui w)
           ++ [ say (toString now) user (chatInput (ui w));
                say (toString now') model t ]
    /\ chatInput (ui w') = []
    /\ isChatLoading (ui w') = false
    /\ isGenerating (ui w') = isGenerating (ui w)
    /\ generatedImage (ui w') = generatedImage (ui w)
    /\ filter isGenerateCall (calls w') = filter isGenerateCall (calls w)
    /\ pending w' = pending w.
Proof.
  intros Ht Hi Hr Htt. simpl.
  destruct (message_sent w now now1 Ht Hi) as (Hp & Hu & Hc).
  rewrite Hp, nth_error_last. simpl. rewrite Hr.
  eexists. split; [reflexivity |].
  unfold handleSendMessage_resume, chat_text. simpl. rewrite Htt. simpl.
  rewrite Hu, Hp, Hc, remove_nth_last. simpl.
  rewrite <- app_assoc. repeat split.
Qed.

Lemma text_reply_is_appended_witness :
  exists w',
    run [ SendClicked 1 1; Settled 0 (MessageSettled (inr adviceReply)) 2 ]
        (setChatInput Samples.blueWalls Samples.sessionA) = Some w'
    /\ chatHistory (ui w')
       = [ welcome; say (toString 1) user Samples.blueWalls;
           say (toString 2) model (lit "Try a navy rug.") ]
    /\ isChatLoading (ui w') = false.
Proof.
  destruct (@text_reply_is_appended
              (setChatInput Samples.blueWalls Samples.sessionA) 1 1 2
              (inr adviceReply) Samples.imageA (lit "Try a navy rug.")
              eq_refl eq_refl eq_refl eq_refl)
    as (w' & R & H & _ & L & _).
  exists w'. repeat split; assumption.
Defined.

(** The advisor asked for a visual edit: what the resumed handler leaves
    behind while the image is awaited. *)
Lemma edit_requested (w : World) (img : jstr) (visual : option jstr)
    (now : N) :
  handleSendMessage_resume img
    (inr {| cr_text := None;
            toolCall :=
              Some {| tc_name := lit "updateRoomDesign";
                      tc_args := Some {| visualDescription := visual |} |} |})
    now w
  = suspend AwaitChatImage
      (generateReimaginedImage img visual
         (setIsGenerating true (append [updatingMsg now visual] w))).
Proof.
  reflexivity.
Qed.

(** X10. A message sent with an image loaded, answered by the advisor
    with an [updateRoomDesign] call, whose image request then resolves:
    the history grows by the user's turn, the acknowledgement quoting the
    description and the confirmation, in this order; one image request
    goes out, with [originalImage] and the description; [generatedImage]
    is the new image; both busy flags are false and nothing is left
    suspended. *)
Theorem visual_edit_succeeds (w : World) (now now1 now2 now3 : N)
    (r : result SendMessageResult) (r' : result GenerateContentResponse)
    (img url : jstr) (visual : option jstr) :
  truthy (trim (chatInput (ui w))) = true ->
  activeImage w = Some img ->
  sendMessageToAdvisor_settle r
    = inr {| cr_text := None;
             toolCall :=
               Some {| tc_name := lit "updateRoomDesign";
                       tc_args := Some {| visualDescription := visual |} |} |} ->
  generateReimaginedImage_settle r' = inr url ->
  exists w',
    run [ SendClicked now now1;
          Settled (List.length (pending w)) (MessageSettled r) now2;
          Settled (List.length (pending w)) (ContentSettled r') now3 ] w
      = Some w'
    /\ chatHistory (ui w')
       = chatHistory (ui w)
           ++ [ say (toString now) user (chatInput (ui w));
                updatingMsg now2 visual; updatedMsg now3 ]
    /\ filter isGenerateCall (calls w')
       = filter isGenerateCall (calls w) ++ [GenerateImage img visual]
    /\ generatedImage (ui w') = Some url
    /\ isGenerating (ui w') = false
    /\ isChatLoading (ui w') = false
    /\ pending w' = pending w.
Proof.
  intros Ht Hi Hr Hr'. simpl.
  destruct (message_sent w now now1 Ht Hi) as (Hp & Hu & Hc).
  rewrite Hp, nth_error_last. simpl. rewrite Hr, edit_requested.
  unfold suspend, generateReimaginedImage, emit. simpl.
  rewrite Hp, remove_nth_last, nth_error_last.
  simpl. rewrite Hr'. eexists. split; [reflexivity |].
  simpl. rewrite Hu, filter_app, Hc, ?Hp, !remove_nth_last. simpl.
  rewrite <- !app_assoc. repeat split.
Qed.

Lemma visual_edit_succeeds_witness :
  exists w',
    run [ SendClicked 1 1;
          Settled 0 (MessageSettled (inr Samples.editReply)) 2;
          Settled 0 (ContentSettled (inr Samples.answerD)) 3 ]
        (setChatInput Samples.blueWalls Samples.sessionA) = Some w'
    /\ filter isGenerateCall (calls w')
       = [GenerateImage Samples.imageA (Some Samples.blueRoom)]
    /\ generatedImage (ui w') = Some (lit "data:image/jpeg;base64,DDDD").
Proof.
  destruct (@visual_edit_succeeds
              (setChatInput Samples.blueWalls Samples.sessionA) 1 1 2 3
              (inr Samples.editReply) (inr Samples.answerD)
              Samples.imageA (lit "data:image/jpeg;base64,DDDD")
              (Some Samples.blueRoom) eq_refl eq_refl eq_refl eq_refl)
    as (w' & R & _ & C & G & _).
  exists w'. repeat split; assumption.
Defined.

(** X11. A message sent with an image loaded, whose advisor request
    fails (the promise rejects, or the result has neither function calls
    nor a response object): after the user's turn exactly one turn is
    appended, the generic error turn flagged [isError]; no image request
    goes out, [generatedImage] is unchanged, and both [isChatLoading] and
    [isGenerating] are false, the latter even when a style request was
    in flight and had set it. *)
Theorem advisor_failure_is_reported (w : World) (now now1 now2 : N)
    (r : result SendMessageResult) (e : exn) (img : jstr) :
  truthy (trim (chatInput (ui w))) = true ->
  activeImage w = Some img ->
  sendMessageToAdvisor_settle r = inl e ->
  exists w',
    run [ SendClicked now now1;
          Settled (List.length (pending w)) (MessageSettled r) now2 ] w
      = Some w'
    /\ chatHistory (ui w')
       = chatHistory (ui w)
           ++ [ say (toString now) user (chatInput (ui w)); chatErrorMsg now2 ]
    /\ isError (chatErrorMsg now2) = Some true
    /\ filter isGenerateCall (calls w') = filter isGenerateCall (calls w)
    /\ generatedImage (ui w') = generatedImage (ui w)
    /\ isChatLoading (ui w') = false
    /\ isGenerating (ui w') = false
    /\ pending w' = pending w.
Proof.
  intros Ht Hi Hr. simpl.
  destruct (message_sent w now now1 Ht Hi) as (Hp & Hu & Hc).
  rewrite Hp, nth_error_last. simpl. rewrite Hr.
  eexists. split; [reflexivity |].
  simpl. rewrite Hu, Hc, Hp, remove_nth_last. simpl.
  rewrite <- app_assoc. repeat split.
Qed.

Lemma advisor_failure_is_reported_witness :
  exists w',
    run [ SendClicked 1 1;
          Settled 0 (MessageSettled
                       (inr {| functionCalls := Some []; response := None |})) 2 ]
        (setChatInput Samples.blueWalls Samples.sessionA) = Some w'
    /\ chatHistory (ui w')
       = [ welcome; say (toString 1) user Samples.blueWalls; chatErrorMsg 2 ]
    /\ isChatLoading (ui w') = false.
Proof.
  destruct (@advisor_failure_is_reported
              (setChatInput Samples.blueWalls Samples.sessionA) 1 1 2
              (inr {| functionCalls := Some []; response := None |})
              TypeError Samples.imageA eq_refl eq_refl eq_refl)
    as (w' & R & H & _ & _ & _ & L & _).
  exists w'. repeat split; assumption.
Defined.

(** X12. A visual edit whose image request fails (the model rejects or
    answers without an image): the history ends with the acknowledgement
    followed by exactly one error turn flagged [isError],
    [generatedImage] keeps the value it had before the message, both
    busy flags are false and nothing is left suspended. *)
Theorem visual_edit_failure_keeps_render (w : World) (now now1 now2 now3 : N)
    (r : result SendMessageResult) (r' : result GenerateContentResponse)
    (e : exn) (img : jstr) (visual : option jstr) :
  truthy (trim (chatInput (ui w))) = true ->
  activeImage w = Some img ->
  sendMessageToAdvisor_settle r
    = inr {| cr_text := None;
             toolCall :=
               Some {| tc_name := lit "updateRoomDesign";
                       tc_args := Some {| visualDescription := visual |} |} |} ->
  generateReimaginedImage_settle r' = inl e ->
  exists w',
    run [ SendClicked now now1;
          Settled (List.length (pending w)) (MessageSettled r) now2;
          Settled (List.length (pending w)) (ContentSettled r') now3 ] w
      = Some w'
    /\ chatHistory (ui w')
       = chatHistory (ui w)
           ++ [ say (toString now) user (chatInput (ui w));
                updatingMsg now2 visual; chatErrorMsg now3 ]
    /\ generatedImage (ui w') = generatedImage (ui w)
    /\ isGenerating (ui w') = false
    /\ isChatLoading (ui w') = false
    /\ pending w' = pending w.
Proof.
  intros Ht Hi Hr Hr'. simpl.
  destruct (message_sent w now now1 Ht Hi) as (Hp & Hu & Hc).
  rewrite Hp, nth_error_last. simpl. rewrite Hr, edit_requested.
  unfold suspend, generateReimaginedImage, emit. simpl.
  rewrite Hp, remove_nth_last, nth_error_last.
  simpl. rewrite Hr'. eexists. split; [reflexivity |].
  simpl. rewrite Hu, ?Hp, !remove_nth_last. simpl.
  rewrite <- !app_assoc. repeat split.
Qed.

Lemma visual_edit_failure_keeps_render_witness :
  exists w',
    run [ SendClicked 1 1;
          Settled 0 (MessageSettled (inr Samples.editReply)) 2;
          Settled 0 (ContentSettled (inl Rejected)) 3 ]
        (setChatInput Samples.blueWalls Samples.sessionA) = Some w'
    /\ generatedImage (ui w') = Some Samples.renderB
    /\ isGenerating (ui w') = false.
Proof.
  destruct (@visual_edit_failure_keeps_render
              (setChatInput Samples.blueWalls Samples.sessionA) 1 1 2 3
              (inr Samples.editReply) (inl Rejected) Rejected
              Samples.imageA (Some Samples.blueRoom)
              eq_refl eq_refl eq_refl eq_refl)
    as (w' & R & _ & G & F & _).
  exists w'. repeat split; assumption.
Defined.

(** ** App: the busy flags and what is in flight *)

Lemma filter_remove_nth {A} (f : A -> bool) (l : list A) (i : nat) (p : A) :
  nth_error l i = Some p ->
  List.length (filter f l)
  = (List.length (filter f (remove_nth i l)) + (if f p then 1 else 0))%nat.
Proof.
  revert i. induction l as [| x l IH]; intros [| i]; simpl;
    try discriminate.
  - intros [= ->]. destruct (f p); simpl; lia.
  - intros H. specialize (IH i H). destruct (f x); simpl; lia.
Qed.

Lemma filter_snoc {A} (f : A -> bool) (l : list A) (p : A) :
  List.length (filter f (l ++ [p]))
  = (List.length (filter f l) + (if f p then 1 else 0))%nat.
Proof.
  rewrite filter_app, length_app. simpl. destruct (f p); reflexivity.
Qed.

Lemma flagsBacked_step (e : Event) (w w' : World) :
  flagsBacked w -> step e w = Some w' -> flagsBacked w'.
Proof.
  unfold flagsBacked, outstandingGenerations, chatsInFlight.
  intros [Hg Hc].
  destruct e as [file | | v | style now | now now' | now now' | i v now];
    simpl.
  - intros [= <-]. unfold handleFileUpload. destruct file; simpl; auto.
    rewrite !filter_snoc. simpl. rewrite !Nat.add_0_r. auto.
  - intros [= <-]. auto.
  - intros [= <-]. auto.
  - intros [= <-]. unfold handleStyleSelect.
    destruct (activeImage w); simpl; auto.
    rewrite !filter_snoc. simpl. split; [lia |].
    rewrite Nat.add_0_r. auto.
  - intros [= <-]. unfold handleSendMessage.
    destruct (negb (truthy (trim (chatInput (ui w))))); auto.
    destruct (activeImage w); simpl; auto.
    unfold sendMessageToAdvisor. destruct (chatSession w); simpl;
      rewrite !filter_snoc; simpl; (split; [| lia]);
      rewrite Nat.add_0_r; auto.
  - intros [= <-]. unfold handleSendMessage.
    destruct (negb (truthy (trim (chatInput (ui w))))); auto.
    destruct (activeImage w); simpl; auto.
    unfold sendMessageToAdvisor. destruct (chatSession w); simpl;
      rewrite !filter_snoc; simpl; (split; [| lia]);
      rewrite Nat.add_0_r; auto.
  - destruct (nth_error (pending w) i) as [p |] eqn:Ep; [| discriminate].
    pose proof (filter_remove_nth isImageRequest _ _ Ep) as Ni.
    pose proof (filter_remove_nth isChatHandler _ _ Ep) as Nc.
    destruct p as [| style | c |], v as [res | | r | r];
      simpl; try discriminate; intros [= <-]; simpl in Ni, Nc; simpl.
    + split; intros H; [apply Hg in H | apply Hc in H]; lia.
    + split; intros H; [apply Hg in H | apply Hc in H]; lia.
    + unfold handleStyleSelect_resume.
      destruct (generateReimaginedImage_settle r); simpl;
        (split; [discriminate |]); intros H; apply Hc in H; lia.
    + unfold handleSendMessage_resume, chat_text.
      destruct (sendMessageToAdvisor_settle r) as [e | reply]; simpl;
        [split; discriminate |].
      destruct (toolCall reply) as [tc |].
      * destruct (jstr_eqb (tc_name tc) (lit "updateRoomDesign")).
        -- destruct (tc_args tc); simpl; [| split; discriminate].
           rewrite !filter_snoc. simpl. split; intros H; [lia |].
           apply Hc in H. lia.
        -- destruct (cr_text reply) as [t |]; [destruct (truthy t) |];
             simpl; (split; [| discriminate]); intros H; apply Hg in H; lia.
      * destruct (cr_text reply) as [t |]; [destruct (truthy t) |];
          simpl; (split; [| discriminate]); intros H; apply Hg in H; lia.
    + unfold handleSendMessage_image.
      destruct (generateReimaginedImage_settle r); simpl; split; discriminate.
Qed.

Lemma flagsBacked_run (es : list Event) :
  forall w w', flagsBacked w -> run es w = Some w' -> flagsBacked w'.
Proof.
  induction es as [| e es IH]; simpl; intros w w' H.
  - intros [= <-]. exact H.
  - destruct (step e w) as [w1 |] eqn:E; [| discriminate].
    apply IH. eapply flagsBacked_step; eauto.
Qed.

(** X13. The busy flags never stay stuck.  After any sequence of events
    from the freshly mounted page (uploads, style picks, messages,
    promises settling in any order, through enabled controls or not):
    when no image request is outstanding [isGenerating] is false, and
    when no chat message is in flight [isChatLoading] is false. *)
Theorem flags_never_stuck (es : list Event) (w : World) :
  run es initialWorld = Some w ->
  (outstandingGenerations w = 0%nat -> isGenerating (ui w) = false)
  /\ (chatsInFlight w = 0%nat -> isChatLoading (ui w) = false).
Proof.
  intros Hr.
  assert (H0 : flagsBacked initialWorld) by (split; discriminate).
  destruct (flagsBacked_run es H0 Hr) as [Hg Hc].
  split; intros Hz.
  - destruct (isGenerating (ui w)); [| reflexivity].
    specialize (Hg eq_refl). lia.
  - destruct (isChatLoading (ui w)); [| reflexivity].
    specialize (Hc eq_refl). lia.
Qed.

Lemma flags_never_stuck_witness :
  exists w,
    run (Samples.overlapRun
           ++ [ Settled 0 (ContentSettled (inr Samples.answerB)) 4;
                Settled 0 (ContentSettled (inl Rejected)) 5 ])
        initialWorld = Some w
    /\ isGenerating (ui w) = false /\ isChatLoading (ui w) = false.
Proof.
  eexists. split; [vm_compute; reflexivity |].
  match goal with
  | |- isGenerating (ui ?w) = _ /\ _ =>
      destruct (@flags_never_stuck
                  (Samples.overlapRun
                     ++ [ Settled 0 (ContentSettled (inr Samples.answerB)) 4;
                          Settled 0 (ContentSettled (inl Rejected)) 5 ])
                  w) as [Hg Hc]
  end.
  - vm_compute; reflexivity.
  - split; [apply Hg | apply Hc]; vm_compute; reflexivity.
Defined.

Lemma oneChat_send (now now' : N) (w : World) :
  isChatLoading (ui w) = false ->
  oneChat w -> oneChat (handleSendMessage now now' w).
Proof.
  unfold oneChat, chatsInFlight. intros Hl H. unfold handleSendMessage.
  destruct (negb (truthy (trim (chatInput (ui w))))); [exact H |].
  destruct (activeImage w); simpl; [| exact H].
  unfold sendMessageToAdvisor. destruct (chatSession w); simpl;
    rewrite filter_snoc, H, Hl; reflexivity.
Qed.

Lemma oneChat_step (e : Event) (w w' : World) :
  offered e w = true -> oneChat w -> step e w = Some w' -> oneChat w'.
Proof.
  unfold oneChat, chatsInFlight. intros Ho H.
  destruct e as [file | | v | style now | now now' | now now' | i v now];
    simpl.
  - intros [= <-]. unfold handleFileUpload. destruct file; simpl; auto.
    rewrite filter_snoc. simpl. rewrite Nat.add_0_r. exact H.
  - intros [= <-]. exact H.
  - intros [= <-]. exact H.
  - intros [= <-]. unfold handleStyleSelect.
    destruct (activeImage w); simpl; auto.
    rewrite filter_snoc. simpl. rewrite Nat.add_0_r. exact H.
  - intros [= <-]. apply oneChat_send; [| exact H].
    simpl in Ho. unfold sendButtonDisabled in Ho.
    destruct (isChatLoading (ui w)); [| reflexivity].
    rewrite orb_true_r, andb_false_r in Ho. discriminate.
  - intros [= <-]. apply oneChat_send; [| exact H].
    simpl in Ho. unfold chatInputDisabled in Ho.
    destruct (isChatLoading (ui w)); [| reflexivity].
    rewrite andb_false_r in Ho. discriminate.
  - destruct (nth_error (pending w) i) as [p |] eqn:Ep; [| discriminate].
    pose proof (filter_remove_nth isChatHandler _ _ Ep) as Nc.
    rewrite H in Nc.
    destruct p as [| style | c |], v as [res | | r | r];
      simpl; try discriminate; intros [= <-]; simpl in Nc; simpl.
    + destruct (isChatLoading (ui w)); lia.
    + destruct (isChatLoading (ui w)); lia.
    + unfold handleStyleSelect_resume.
      destruct (generateReimaginedImage_settle r); simpl;
        destruct (isChatLoading (ui w)); lia.
    + assert (Hl : isChatLoading (ui w) = true)
        by (destruct (isChatLoading (ui w)); [reflexivity | lia]).
      rewrite Hl in Nc.
      unfold handleSendMessage_resume, chat_text.
      destruct (sendMessageToAdvisor_settle r) as [e | reply]; simpl;
        [lia |].
      destruct (toolCall reply) as [tc |].
      * destruct (jstr_eqb (tc_name tc) (lit "updateRoomDesign")).
        -- destruct (tc_args tc); simpl; [| lia].
           rewrite filter_snoc, Hl. simpl. lia.
        -- destruct (cr_text reply) as [t |]; [destruct (truthy t) |];
             simpl; lia.
      * destruct (cr_text reply) as [t |]; [destruct (truthy t) |];
          simpl; lia.
    + assert (Hl : isChatLoading (ui w) = true)
        by (destruct (isChatLoading (ui w)); [reflexivity | lia]).
      rewrite Hl in Nc.
      unfold handleSendMessage_image.
      destruct (generateReimaginedImage_settle r); simpl; lia.
Qed.

Lemma oneChat_run (es : list Event) :
  forall w w', oneChat w -> run_ui es w = Some w' -> oneChat w'.
Proof.
  induction es as [| e es IH]; simpl; intros w w' H.
  - intros [= <-]. exact H.
  - destruct (offered e w) eqn:Ho; [| discriminate].
    destruct (step e w) as [w1 |] eqn:E; [| discriminate].
    apply IH. eapply oneChat_step; eauto.
Qed.

(** X14. Chat messages are serialised.  In every run from the freshly
    mounted page in which the user acts through controls that are
    rendered and enabled, at most one chat message is in flight at any
    time, across uploads and "Start Over", and [isChatLoading] is true
    exactly while one is. *)
Theorem chat_messages_are_serialised (es : list Event) (w : World) :
  run_ui es initialWorld = Some w ->
  (chatsInFlight w <= 1)%nat
  /\ (isChatLoading (ui w) = true <-> chatsInFlight w = 1%nat).
Proof.
  intros Hr.
  assert (H : oneChat w) by (eapply oneChat_run; [| exact Hr]; reflexivity).
  unfold oneChat in H. rewrite H.
  destruct (isChatLoading (ui w)); split; try lia; split; congruence.
Qed.

Lemma chat_messages_are_serialised_witness :
  exists w,
    run_ui Samples.overlapRun initialWorld = Some w
    /\ (chatsInFlight w <= 1)%nat
    /\ (isChatLoading (ui w) = true <-> chatsInFlight w = 1%nat).
Proof.
  eexists. split; [vm_compute; reflexivity |].
  apply (@chat_messages_are_serialised Samples.overlapRun).
  vm_compute; reflexivity.
Defined.

(** ** App: the history, the sources and the chat session over whole runs *)

Lemma handleSendMessage_history (now now' : N) (w : World) :
  exists more,
    chatHistory (ui (handleSendMessage now now' w)) = chatHistory (ui w) ++ more.
Proof.
  unfold handleSendMessage.
  destruct (negb (truthy (trim (chatInput (ui w)))));
    [exists []; rewrite app_nil_r; reflexivity |].
  destruct (activeImage w); [| eexists; reflexivity].
  unfold sendMessageToAdvisor. simpl.
  destruct (chatSession w); eexists; reflexivity.
Qed.

Lemma step_history (e : Event) (w w' : World) :
  isReaderLoad e = false -> step e w = Some w' ->
  exists more, chatHistory (ui w') = chatHistory (ui w) ++ more.
Proof.
  intros Hn.
  destruct e as [file | | v | style now | now now' | now now' | i v now];
    simpl.
  - intros [= <-]. exists []. rewrite app_nil_r.
    unfold handleFileUpload. destruct file; reflexivity.
  - intros [= <-]. exists []. rewrite app_nil_r. reflexivity.
  - intros [= <-]. exists []. rewrite app_nil_r. reflexivity.
  - intros [= <-]. unfold handleStyleSelect.
    destruct (activeImage w); [eexists; reflexivity |].
    exists []. rewrite app_nil_r. reflexivity.
  - intros [= <-]. apply handleSendMessage_history.
  - intros [= <-]. apply handleSendMessage_history.
  - destruct (nth_error (pending w) i) as [p |]; [| discriminate].
    destruct p as [| style | c |], v as [res | | r | r];
      simpl; try discriminate; intros [= <-]; simpl.
    + exists []. rewrite app_nil_r. reflexivity.
    + unfold handleStyleSelect_resume.
      destruct (generateReimaginedImage_settle r); eexists; reflexivity.
    + unfold handleSendMessage_resume, chat_text.
      destruct (sendMessageToAdvisor_settle r) as [e | reply];
        [eexists; reflexivity |].
      destruct (toolCall reply) as [tc |].
      * destruct (jstr_eqb (tc_name tc) (lit "updateRoomDesign")).
        -- destruct (tc_args tc); eexists; reflexivity.
        -- destruct (cr_text reply) as [t |]; [destruct (truthy t) |];
             try (eexists; reflexivity);
             exists []; rewrite app_nil_r; reflexivity.
      * destruct (cr_text reply) as [t |]; [destruct (truthy t) |];
          try (eexists; reflexivity);
          exists []; rewrite app_nil_r; reflexivity.
    + unfold handleSendMessage_image.
      destruct (generateReimaginedImage_settle r); eexists; reflexivity.
Qed.

(** X15. The history is append-only.  Through any sequence of events in
    which no newly read file arrives (style picks, messages, failures,
    "Start Over", promises settling in any order), the history
    afterwards is the history before followed by the new turns: no turn
    is removed, reordered or rewritten. *)
Theorem history_is_append_only (es : list Event) :
  forall w w',
    forallb (fun e => negb (isReaderLoad e)) es = true ->
    run es w = Some w' ->
    exists more, chatHistory (ui w') = chatHistory (ui w) ++ more.
Proof.
  induction es as [| e es IH]; simpl; intros w w' Hn.
  - intros [= <-]. exists []. rewrite app_nil_r. reflexivity.
  - apply andb_prop in Hn. destruct Hn as [He Hn].
    apply negb_true_iff in He.
    destruct (step e w) as [w1 |] eqn:E; [| discriminate].
    intros Hr. destruct (step_history _ _ He E) as [m1 H1].
    destruct (IH _ _ Hn Hr) as [m2 H2].
    exists (m1 ++ m2). rewrite H2, H1, app_assoc. reflexivity.
Qed.

Lemma history_is_append_only_witness :
  exists w' more,
    run (Samples.twoEdits ++ [StartOver]) Samples.sessionA = Some w'
    /\ chatHistory (ui w') = chatHistory (ui Samples.sessionA) ++ more.
Proof.
  assert (R : exists w', run (Samples.twoEdits ++ [StartOver]) Samples.sessionA
                         = Some w') by (eexists; vm_compute; reflexivity).
  destruct R as [w' R].
  destruct (@history_is_append_only (Samples.twoEdits ++ [StartOver])
              Samples.sessionA w' eq_refl R) as [more H].
  exists w', more. split; assumption.
Defined.

(** *** Where source images come from *)

Section Provenance.

Variable U : list jstr.

Let good (c : jstr) : Prop := In c U /\ truthy c = true.

Lemma fromUploads_more (V : list jstr) (w : World) :
  fromUploads U w -> fromUploads (U ++ V) w.
Proof.
  intros (Ho & Hp & Hc). repeat split.
  - intros img H. apply in_or_app. left. auto.
  - apply in_or_app. left. exact (proj1 (Hp c H)).
  - exact (proj2 (Hp c H)).
  - apply in_or_app. left. exact (proj1 (Hc src p H)).
  - exact (proj2 (Hc src p H)).
Qed.

Lemma fromUploads_onUi (f : State -> State) (w : World) :
  originalImage (f (ui w)) = originalImage (ui w) ->
  fromUploads U w -> fromUploads U (onUi f w).
Proof.
  intros Hf (Ho & Hp & Hc). split; [| split]; simpl; auto.
  rewrite Hf. exact Ho.
Qed.

Lemma fromUploads_take (i : nat) (w : World) :
  fromUploads U w -> fromUploads U (take i w).
Proof.
  intros (Ho & Hp & Hc). split; [| split]; simpl; auto.
  intros c H. apply Hp. eapply In_remove_nth. exact H.
Qed.

Lemma fromUploads_suspend (p : Pending) (w : World) :
  (forall c, p = AwaitAdvisor c -> good c) ->
  fromUploads U w -> fromUploads U (suspend p w).
Proof.
  intros Hn (Ho & Hp & Hc). split; [| split]; simpl; auto.
  intros c H. apply in_app_or in H. destruct H as [H | [H | []]]; auto.
  apply Hn. exact H.
Qed.

Lemma fromUploads_emit (c : Call) (w : World) :
  (forall src p, c = GenerateImage src p -> good src) ->
  fromUploads U w -> fromUploads U (emit c w).
Proof.
  intros Hn (Ho & Hp & Hc). split; [| split]; simpl; auto.
  intros src p H. apply in_app_or in H.
  destruct H as [H | [H | []]]; [exact (Hc src p H) | exact (Hn src p H)].
Qed.

Lemma fromUploads_setChatSession (v : option ChatSession) (w : World) :
  fromUploads U w -> fromUploads U (setChatSession v w).
Proof.
  intros (Ho & Hp & Hc). split; [| split]; simpl; auto.
Qed.

Ltac provenance :=
  repeat first
    [ assumption
    | apply fromUploads_suspend; [intros ? [=]; subst; assumption |]
    | apply fromUploads_emit; [intros ? ? [=]; subst; assumption |]
    | apply fromUploads_setChatSession
    | apply fromUploads_onUi; [reflexivity |]
    | apply fromUploads_take ].

Lemma fromUploads_active (w : World) (img : jstr) :
  fromUploads U w -> activeImage w = Some img -> good img.
Proof.
  intros (Ho & _) H. apply activeImage_some in H. destruct H as [H T].
  split; auto.
Qed.

Lemma fromUploads_chat_catch (now : N) (w : World) :
  fromUploads U w -> fromUploads U (chat_catch now w).
Proof.
  intros H. unfold chat_catch, setIsChatLoading, setIsGenerating, append,
    setChatHistory. provenance.
Qed.

Lemma fromUploads_chat_text (reply : ChatResponse) (now : N) (w : World) :
  fromUploads U w -> fromUploads U (chat_text reply now w).
Proof.
  intros H. unfold chat_text, setIsChatLoading, append, setChatHistory.
  destruct (cr_text reply) as [t |]; [destruct (truthy t) |]; provenance.
Qed.

Lemma fromUploads_handleStyleSelect (style : DesignStyle) (now : N)
    (w : World) :
  fromUploads U w -> fromUploads U (handleStyleSelect style now w).
Proof.
  intros H. unfold handleStyleSelect.
  destruct (activeImage w) as [i |] eqn:E; [| exact H].
  pose proof (fromUploads_active H E) as Hg.
  unfold generateReimaginedImage, append, setChatHistory, setIsGenerating.
  provenance.
Qed.

Lemma fromUploads_handleSendMessage (now now' : N) (w : World) :
  fromUploads U w -> fromUploads U (handleSendMessage now now' w).
Proof.
  intros H. unfold handleSendMessage.
  destruct (negb (truthy (trim (chatInput (ui w))))); [exact H |].
  destruct (activeImage w) as [i |] eqn:E.
  - pose proof (fromUploads_active H E) as Hg.
    unfold sendMessageToAdvisor. simpl.
    destruct (chatSession w);
      unfold setIsChatLoading, setChatInput, append, setChatHistory;
      provenance.
  - unfold setChatInput, append, setChatHistory. provenance.
Qed.

Lemma fromUploads_handleSendMessage_resume (c : jstr)
    (r : result ChatResponse) (now : N) (w : World) :
  good c -> fromUploads U w ->
  fromUploads U (handleSendMessage_resume c r now w).
Proof.
  intros Hc H. unfold handleSendMessage_resume.
  destruct r as [e | reply]; [apply fromUploads_chat_catch; exact H |].
  destruct (toolCall reply) as [tc |];
    [| apply fromUploads_chat_text; exact H].
  destruct (jstr_eqb (tc_name tc) (lit "updateRoomDesign"));
    [| apply fromUploads_chat_text; exact H].
  destruct (tc_args tc) as [args |];
    [| apply fromUploads_chat_catch; exact H].
  unfold generateReimaginedImage, setIsGenerating, append, setChatHistory.
  provenance.
Qed.

(** An event other than the arrival of a file keeps the invariant. *)
Lemma fromUploads_step (e : Event) (w w' : World) :
  isReaderLoad e = false ->
  fromUploads U w -> step e w = Some w' -> fromUploads U w'.
Proof.
  intros Hn H.
  destruct e as [file | | v | style now | now now' | now now' | i v now];
    simpl.
  - intros [= <-]. unfold handleFileUpload. destruct file; provenance.
  - intros [= <-]. destruct H as (Ho & Hp & Hc).
    split; [| split]; simpl; auto. discriminate.
  - intros [= <-]. unfold setChatInput. provenance.
  - intros [= <-]. apply fromUploads_handleStyleSelect; exact H.
  - intros [= <-]. apply fromUploads_handleSendMessage; exact H.
  - intros [= <-]. apply fromUploads_handleSendMessage; exact H.
  - destruct (nth_error (pending w) i) as [p |] eqn:Ep; [| discriminate].
    assert (Ht : fromUploads U (take i w)) by provenance.
    destruct p as [| style | c |], v as [res | | r | r];
      simpl; try discriminate; intros [= <-].
    + exact Ht.
    + unfold handleStyleSelect_resume.
      destruct (generateReimaginedImage_settle r);
        unfold setIsGenerating, append, setChatHistory, setGeneratedImage;
        provenance.
    + apply fromUploads_handleSendMessage_resume; [| exact Ht].
      destruct H as (_ & Hp & _). apply Hp.
      eapply nth_error_In. exact Ep.
    + unfold handleSendMessage_image.
      destruct (generateReimaginedImage_settle r);
        [apply fromUploads_chat_catch; exact Ht |].
      unfold setIsChatLoading, setIsGenerating, append, setChatHistory,
        setGeneratedImage.
      provenance.
Qed.

End Provenance.

(** The arrival of a file adds it to the uploads. *)
Lemma fromUploads_load (U : list jstr) (i : nat) (img : jstr) (now : N)
    (w w' : World) :
  fromUploads U w ->
  step (Settled i (ReaderLoaded img) now) w = Some w' ->
  fromUploads (U ++ [img]) w'.
Proof.
  intros H. simpl.
  destruct (nth_error (pending w) i) as [p |]; [| discriminate].
  destruct p; simpl; try discriminate. intros [= <-].
  pose proof (fromUploads_more [img] (fromUploads_take i H))
    as (Ho & Hp & Hc).
  split; [| split]; simpl; auto.
  intros c [= <-]. apply in_or_app. right. left. reflexivity.
Qed.

Lemma uploads_cons (e : Event) (es : list Event) :
  uploads (e :: es) = uploads [e] ++ uploads es.
Proof.
  destruct e as [| | | | | | i v now]; try reflexivity.
  destruct v; reflexivity.
Qed.

Lemma fromUploads_run (es : list Event) :
  forall U w w',
    fromUploads U w -> run es w = Some w' -> fromUploads (U ++ uploads es) w'.
Proof.
  induction es as [| e es IH]; intros U w w' H; simpl run.
  - intros [= <-]. simpl. rewrite app_nil_r. exact H.
  - destruct (step e w) as [w1 |] eqn:E; [| discriminate].
    intros Hr. rewrite uploads_cons, app_assoc.
    apply (IH _ w1 w'); [| exact Hr].
    destruct (isReaderLoad e) eqn:L.
    + destruct e as [| | | | | | i v now]; try discriminate L.
      destruct v as [img | | |]; try discriminate L.
      simpl uploads. eapply fromUploads_load; eauto.
    + assert (Hu : uploads [e] = []).
      { destruct e as [| | | | | | i v now]; try reflexivity.
        destruct v; try reflexivity. discriminate L. }
      rewrite Hu, app_nil_r. eapply fromUploads_step; eauto.
Qed.

(** X16. Across any number of sessions, in any run from the freshly
    mounted page, the source image of every image request is a non-empty
    string that the file reader delivered earlier in that run: a
    generated image is never fed back as a source, and no request goes
    out without a photo. *)
Theorem sources_are_uploaded_photos (es : list Event) (w : World)
    (src : jstr) (p : option jstr) :
  run es initialWorld = Some w ->
  In (GenerateImage src p) (calls w) ->
  In src (uploads es) /\ truthy src = true.
Proof.
  intros Hr Hin.
  assert (H0 : fromUploads [] initialWorld).
  { split; [| split]; simpl; [discriminate | intros c [] | intros s q []]. }
  destruct (fromUploads_run es H0 Hr) as (_ & _ & Hc).
  exact (Hc src p Hin).
Qed.

Lemma sources_are_uploaded_photos_witness :
  exists w,
    run Samples.staleRun initialWorld = Some w
    /\ In Samples.imageA (uploads Samples.staleRun)
    /\ truthy Samples.imageA = true.
Proof.
  destruct (run Samples.staleRun initialWorld) as [w |] eqn:R;
    [| vm_compute in R; discriminate].
  exists w. split; [reflexivity |].
  apply (@sources_are_uploaded_photos Samples.staleRun w Samples.imageA
           (Some (prompt Samples.modern)) R).
  assert (R' := R). vm_compute in R'. injection R' as <-.
  vm_compute. left. reflexivity.
Defined.

(** *** The chat session of a session *)

Lemma chatLog_quiet (recent added : list Call) (w w' : World) :
  chatSession w' = chatSession w ->
  filter isChatCall added = [] ->
  chatLog recent w -> chatLog (recent ++ added) w'.
Proof.
  unfold chatLog. intros Hs Ha H. rewrite filter_app, Ha, app_nil_r, Hs.
  exact H.
Qed.

Lemma chatLog_send (recent : list Call) (message : jstr)
    (history : list ChatMessage) (v : World) :
  chatLog recent v ->
  exists added,
    calls (sendMessageToAdvisor message history v) = calls v ++ added
    /\ chatLog (recent ++ added) (sendMessageToAdvisor message history v).
Proof.
  unfold chatLog, sendMessageToAdvisor.
  intros [[Hf Hs] | (h & msgs & Hf & Hs)]; rewrite Hs; simpl.
  - eexists. rewrite <- app_assoc. split; [reflexivity |].
    right. eexists. exists [message].
    rewrite filter_app, Hf. simpl. split; reflexivity.
  - exists [ChatSendMessage message]. split; [reflexivity |].
    right. exists h, (msgs ++ [message]).
    rewrite filter_app, Hf, map_app. simpl. rewrite Hs. split; reflexivity.
Qed.

Ltac quiet H :=
  exists []; rewrite !app_nil_r; split; [reflexivity | exact H].

Ltac quiet_with H c :=
  exists [c]; split;
    [reflexivity
    | apply (fun Hs Ha => @chatLog_quiet _ _ _ _ Hs Ha H); reflexivity].

Lemma chatLog_handleSendMessage (recent : list Call) (now now' : N)
    (w : World) :
  chatLog recent w ->
  exists added,
    calls (handleSendMessage now now' w) = calls w ++ added
    /\ chatLog (recent ++ added) (handleSendMessage now now' w).
Proof.
  intros H. unfold handleSendMessage.
  destruct (negb (truthy (trim (chatInput (ui w))))); [quiet H |].
  destruct (activeImage w) as [img |]; [| quiet H].
  destruct (@chatLog_send recent (chatInput (ui w)) (chatHistory (ui w))
              (setIsChatLoading true
                 (setChatInput []
                    (append [say (toString now) user (chatInput (ui w))] w)))
              H)
    as (added & Hc & Hl).
  exists added. split; [exact Hc | exact Hl].
Qed.

Lemma chatLog_step (e : Event) (w w' : World) (recent : list Call) :
  keepsSession e = true ->
  chatLog recent w -> step e w = Some w' ->
  exists added, calls w' = calls w ++ added /\ chatLog (recent ++ added) w'.
Proof.
  intros Hk H.
  destruct e as [file | | v | style now | now now' | now now' | i v now];
    simpl; try discriminate Hk.
  - intros [= <-]. unfold handleFileUpload. destruct file; quiet H.
  - intros [= <-]. quiet H.
  - intros [= <-]. unfold handleStyleSelect.
    destruct (activeImage w) as [img |]; [| quiet H].
    quiet_with H (GenerateImage img (Some (prompt style))).
  - intros [= <-]. apply chatLog_handleSendMessage; exact H.
  - intros [= <-]. apply chatLog_handleSendMessage; exact H.
  - destruct (nth_error (pending w) i) as [p |]; [| discriminate].
    destruct p as [| style | c |], v as [res | | r | r];
      simpl; try discriminate; intros [= <-].
    + quiet H.
    + unfold handleStyleSelect_resume.
      destruct (generateReimaginedImage_settle r); quiet H.
    + unfold handleSendMessage_resume, chat_text.
      destruct (sendMessageToAdvisor_settle r) as [e | reply]; [quiet H |].
      destruct (toolCall reply) as [tc |].
      * destruct (jstr_eqb (tc_name tc) (lit "updateRoomDesign")).
        -- destruct (tc_args tc) as [args |]; [| quiet H].
           quiet_with H (GenerateImage c (visualDescription args)).
        -- destruct (cr_text reply) as [t |]; [destruct (truthy t) |];
             quiet H.
      * destruct (cr_text reply) as [t |]; [destruct (truthy t) |]; quiet H.
    + unfold handleSendMessage_image.
      destruct (generateReimaginedImage_settle r); quiet H.
Qed.

Lemma chatLog_run (es : list Event) :
  forall w w' recent,
    forallb keepsSession es = true ->
    chatLog recent w -> run es w = Some w' ->
    exists added, calls w' = calls w ++ added /\ chatLog (recent ++ added) w'.
Proof.
  induction es as [| e es IH]; simpl; intros w w' recent Hk H.
  - intros [= <-]. exists []. rewrite !app_nil_r. auto.
  - apply andb_prop in Hk. destruct Hk as [Hk Hks].
    destruct (step e w) as [w1 |] eqn:E; [| discriminate].
    intros Hr.
    destruct (@chatLog_step e w w1 recent Hk H E) as (a1 & C1 & L1).
    destruct (IH w1 w' _ Hks L1 Hr) as (a2 & C2 & L2).
    exists (a1 ++ a2). rewrite C2, C1, <- !app_assoc. split; [reflexivity |].
    rewrite app_assoc. exact L2.
Qed.

(** X17. One chat session per design session.  From an upload on, while
    the user neither starts over nor uploads again, the calls to the chat
    service are: none, and no chat session exists; or one
    [ai.chats.create] followed by [sendMessage] calls only, and the
    module's [chatSession] is the session that was created.  The history
    is thus handed to the advisor once, with the first message; later
    messages reuse the session. *)
Theorem one_chat_session_per_upload (w0 : World) (img : jstr)
    (es : list Event) (w : World) :
  forallb keepsSession es = true ->
  run es (reader_onload img w0) = Some w ->
  exists recent,
    calls w = calls w0 ++ recent
    /\ ((filter isChatCall recent = [] /\ chatSession w = None)
        \/ exists h msgs,
             filter isChatCall recent
             = ChatsCreate h :: map ChatSendMessage msgs
             /\ chatSession w = Some {| created_with := h |}).
Proof.
  intros Hk Hr.
  assert (H0 : chatLog [] (reader_onload img w0)) by (left; split; reflexivity).
  destruct (@chatLog_run es _ w [] Hk H0 Hr) as (added & Hc & Hl).
  exists added. split; [exact Hc | exact Hl].
Qed.

Lemma one_chat_session_per_upload_witness :
  exists w recent,
    run Samples.twoEdits (reader_onload Samples.imageA initialWorld) = Some w
    /\ calls w = calls initialWorld ++ recent
    /\ ((filter isChatCall recent = [] /\ chatSession w = None)
        \/ exists h msgs,
             filter isChatCall recent
             = ChatsCreate h :: map ChatSendMessage msgs
             /\ chatSession w = Some {| created_with := h |}).
Proof.
  destruct (run Samples.twoEdits (reader_onload Samples.imageA initialWorld))
    as [w |] eqn:R; [| vm_compute in R; discriminate].
  destruct (@one_chat_session_per_upload initialWorld Samples.imageA
              Samples.twoEdits w eq_refl R) as (recent & Hc & Hl).
  exists w, recent. split; [reflexivity |]. split; assumption.
Defined.

(** X18. [sendToolResult] sends nothing and only looks at the module's
    chat session: right after an upload it answers "Session expired",
    and once a message has been sent in a session it answers "Design
    updated.", whatever tool name and status it is given. *)
Theorem sendToolResult_follows_session (toolName resultStatus : jstr) :
  (forall w img,
      sendToolResult toolName resultStatus (reader_onload img w)
      = lit "Session expired")
  /\ (forall w now now' img,
      truthy (trim (chatInput (ui w))) = true ->
      activeImage w = Some img ->
      sendToolResult toolName resultStatus (handleSendMessage now now' w)
      = lit "Design updated.").
Proof.
  split; [reflexivity |].
  intros w now now' img Ht Hi.
  rewrite (handleSendMessage_session w now now' Ht Hi).
  unfold sendToolResult, sendMessageToAdvisor.
  unfold setIsChatLoading, setChatInput, append, setChatHistory, onUi.
  cbn [chatSession].
  destruct (chatSession w); reflexivity.
Qed.

Lemma sendToolResult_follows_session_witness :
  sendToolResult (lit "updateRoomDesign") (lit "ok") Samples.askedA
  = lit "Design updated.".
Proof.
  destruct (sendToolResult_follows_session (lit "updateRoomDesign") (lit "ok"))
    as [_ H].
  exact (H (setChatInput Samples.blueWalls Samples.sessionA) 1%N 1%N
           Samples.imageA eq_refl eq_refl).
Defined.

(** ** CompareSlider: the state machine and the two ends of the range *)

(** X20. While no drag is in progress, moves and releases are ignored:
    through any sequence of events without a press (mouse or touch
    moves with any bounds and pointers, releases), the divider position
    and the dragging flag stay what they were. *)
Theorem idle_slider_ignores_moves (es : list CompareSlider.Event)
    (s : CompareSlider.State) :
  CompareSlider.isDragging s = false ->
  forallb (fun e => negb (isPress e)) es = true ->
  CompareSlider.drag es s = s.
Proof.
  unfold CompareSlider.drag. revert s.
  induction es as [| e es IH]; simpl; intros s Hd Hn; [reflexivity |].
  apply andb_prop in Hn. destruct Hn as [He Hn].
  assert (Hs : CompareSlider.step e s = s).
  { destruct e; simpl in *; try discriminate He;
      unfold CompareSlider.handleMouseMove, CompareSlider.handleTouchMove;
      rewrite Hd; reflexivity. }
  rewrite Hs. apply IH; assumption.
Qed.

Lemma idle_slider_ignores_moves_witness :
  CompareSlider.drag
    [ CompareSlider.MouseMove
        (Some {| CompareSlider.left := 0; CompareSlider.width := 300 |}) 120;
      CompareSlider.TouchMove None [7%float]; CompareSlider.MouseUp ]
    CompareSlider.initialState
  = CompareSlider.initialState.
Proof.
  apply idle_slider_ignores_moves; reflexivity.
Defined.

Section Ends.
Import CompareSlider.
Local Open Scope float_scope.

Lemma Prim2SF_zero : Prim2SF 0 = S754_zero false.
Proof. reflexivity. Qed.

(** A positive number is a positive finite number or plus infinity. *)
Lemma positive_shape (w : float) :
  (0 <? w) = true ->
  (exists m e, Prim2SF w = S754_finite false m e)
  \/ Prim2SF w = S754_infinity false.
Proof.
  rewrite ltb_spec, Prim2SF_zero. unfold SFltb.
  destruct (Prim2SF w) as [s | s | | s m e]; simpl; try discriminate.
  - destruct s; [discriminate | auto].
  - destruct s; [discriminate |]. left. eauto.
Qed.

Lemma leb_not_nan (a b : float) :
  (a <=? b) = true -> is_nan a = false /\ is_nan b = false.
Proof.
  unfold is_nan. rewrite leb_spec, !eqb_spec. unfold SFleb, SFeqb.
  destruct (Prim2SF a) as [sa | sa | | sa ma ea],
           (Prim2SF b) as [sb | sb | | sb mb eb];
    simpl; try discriminate; intros _;
    try (destruct sa); try (destruct sb); simpl;
    rewrite ?Z.compare_refl, ?Pos.compare_cont_refl; auto.
Qed.

Lemma leb_not_ltb (a b : float) : (a <=? b) = true -> (b <? a) = false.
Proof.
  rewrite leb_spec, ltb_spec. unfold SFleb, SFltb.
  rewrite (SFcompare_antisym (Prim2SF a) (Prim2SF b)).
  destruct (SFcompare (Prim2SF a) (Prim2SF b)) as [[| |] |];
    simpl; congruence.
Qed.

(** [d <= 0 < w] gives [d < w]. *)
Lemma below_zero_below_positive (d w : float) :
  (d <=? 0) = true -> (0 <? w) = true -> (d <? w) = true.
Proof.
  rewrite leb_spec, !ltb_spec, Prim2SF_zero. unfold SFleb, SFltb.
  destruct (Prim2SF d) as [sd | sd | | sd md ed],
           (Prim2SF w) as [sw | sw | | sw mw ew];
    simpl; try discriminate;
    try (destruct sd); try (destruct sw); simpl; congruence.
Qed.

(** A number equal to a positive one is positive. *)
Lemma positive_get_sign (d : float) : (0 <? d) = true -> get_sign d = false.
Proof.
  intros H. unfold get_sign, is_zero.
  assert (Hz : (d =? zero) = false).
  { revert H. rewrite ltb_spec, eqb_spec.
    change (Prim2SF zero) with (S754_zero false). rewrite Prim2SF_zero.
    unfold SFltb, SFeqb.
    destruct (Prim2SF d) as [s | s | | s m e]; simpl; try discriminate;
      destruct s; simpl; congruence. }
  rewrite Hz. exact (ltb_asym H).
Qed.

Lemma equal_to_positive (d w : float) :
  (0 <? w) = true -> (d <? w) = false -> (w <? d) = false ->
  is_nan d = false -> (0 <? d) = true.
Proof.
  intros Hw Hdw Hwd Hd. apply is_nan_false in Hd.
  revert Hw Hdw Hwd. rewrite !ltb_spec, Prim2SF_zero. unfold SFltb.
  rewrite (SFcompare_antisym (Prim2SF d) (Prim2SF w)).
  destruct (Prim2SF d) as [sd | sd | | sd md ed],
           (Prim2SF w) as [sw | sw | | sw mw ew];
    simpl; try congruence;
    try (destruct sd); try (destruct sw); simpl; congruence.
Qed.

Lemma div_eucl_shift (m : positive) :
  Z.div_eucl (Z.shiftl (Zpos m) 53) (Zpos m) = (Z.pow 2 53, 0%Z).
Proof.
  rewrite Z.shiftl_mul_pow2 by lia. rewrite Z.mul_comm.
  assert (Hm : Zpos m <> 0%Z) by discriminate.
  pose proof (Z.div_mul (2 ^ 53) (Zpos m) Hm) as Hq.
  pose proof (Z.mod_mul (2 ^ 53) (Zpos m) Hm) as Hr.
  unfold Z.div, Z.modulo in Hq, Hr.
  destruct (Z.div_eucl (2 ^ 53 * Zpos m) (Zpos m)) as [q r].
  rewrite Hq, Hr. reflexivity.
Qed.

(** A positive finite number divided by itself is one. *)
Lemma div_self (w : float) :
  (0 <? w) = true -> (w <? infinity) = true -> w / w = 1.
Proof.
  intros H0 Hi. apply Prim2SF_inj. rewrite div_spec.
  destruct (positive_shape H0) as [(m & e & E) | E].
  - rewrite E. unfold SF64div, SFdiv, SFdiv_core_binary.
    rewrite Z.sub_diag.
    replace (Z.add (Zdigits2 (Zpos m)) e - Z.add (Zdigits2 (Zpos m)) e)%Z
      with 0%Z by lia.
    change (Z.min (fexp prec emax 0) 0) with (-53)%Z.
    change (0 - -53)%Z with 53%Z. cbv iota.
    rewrite div_eucl_shift.
    assert (Hl : new_location (Zpos m) 0 = loc_Exact).
    { unfold new_location, new_location_even, new_location_odd.
      destruct (Z.even (Zpos m)); reflexivity. }
    rewrite Hl. vm_compute. reflexivity.
  - revert Hi. rewrite ltb_spec, E. vm_compute. discriminate.
Qed.

(** X21. A pointer at or left of the container's left edge pins the
    divider at exactly 0, for every positive width (the offset
    [clientX - left] may be any number that is not above zero, however
    far out, even minus infinity). *)
Theorem pointer_left_of_container_gives_0 (rect : DOMRect) (clientX : float)
    (s : State) :
  (0 <? width rect) = true ->
  (clientX - left rect <=? 0) = true ->
  sliderPosition (handleMove (Some rect) clientX s) = 0.
Proof.
  intros Hw Hd. simpl.
  destruct (leb_not_nan Hd) as [Nd _].
  assert (Nw : is_nan (width rect) = false).
  { apply ltb_leb, leb_not_nan in Hw. tauto. }
  assert (Hm : Math_min (clientX - left rect) (width rect)
               = clientX - left rect).
  { unfold Math_min. rewrite Nd, Nw. simpl.
    rewrite (below_zero_below_positive Hd Hw). reflexivity. }
  rewrite Hm.
  assert (Hx : Math_max 0 (clientX - left rect) = 0).
  { unfold Math_max. rewrite Nd. change (is_nan 0) with false. simpl orb.
    cbv iota. rewrite (leb_not_ltb Hd).
    destruct (clientX - left rect <? 0); reflexivity. }
  rewrite Hx.
  assert (Hq : 0 / width rect = 0).
  { apply Prim2SF_inj. rewrite div_spec, Prim2SF_zero.
    destruct (positive_shape Hw) as [(m & e & E) | E];
      rewrite E; reflexivity. }
  rewrite Hq. reflexivity.
Qed.

Lemma pointer_left_of_container_gives_0_witness :
  sliderPosition
    (handleMove (Some {| left := 20; width := 300 |}) (-4000)
       CompareSlider.initialState)
  = 0.
Proof.
  apply (@pointer_left_of_container_gives_0 {| left := 20; width := 300 |}
           (-4000) CompareSlider.initialState);
    vm_compute; reflexivity.
Defined.

(** X22. A pointer at or right of the container's right edge pins the
    divider at exactly 100, for every positive finite width: the clamp
    returns the width itself and the width divided by itself is 1. *)
Theorem pointer_right_of_container_gives_100 (rect : DOMRect)
    (clientX : float) (s : State) :
  (0 <? width rect) = true ->
  (width rect <? infinity) = true ->
  (width rect <=? clientX - left rect) = true ->
  sliderPosition (handleMove (Some rect) clientX s) = 100.
Proof.
  intros Hw Hf Hd. simpl.
  destruct (leb_not_nan Hd) as [Nw Nd].
  assert (Hm : Math_min (clientX - left rect) (width rect) = width rect).
  { unfold Math_min. rewrite Nd, Nw. simpl.
    rewrite (leb_not_ltb Hd).
    destruct (width rect <? clientX - left rect) eqn:Hlt; [reflexivity |].
    rewrite (positive_get_sign
               (equal_to_positive Hw (leb_not_ltb Hd) Hlt Nd)).
    reflexivity. }
  rewrite Hm.
  assert (Hx : Math_max 0 (width rect) = width rect).
  { unfold Math_max. rewrite Nw. change (is_nan 0) with false. simpl orb.
    cbv iota. rewrite Hw. reflexivity. }
  rewrite Hx, (div_self Hw Hf). reflexivity.
Qed.

Lemma pointer_right_of_container_gives_100_witness :
  sliderPosition
    (handleMove (Some {| left := 20; width := 333.25 |}) 5000
       CompareSlider.initialState)
  = 100.
Proof.
  apply (@pointer_right_of_container_gives_100
           {| left := 20; width := 333.25 |} 5000 CompareSlider.initialState);
    vm_compute; reflexivity.
Defined.



(** X26. While a drag is in progress over a container of width zero,
    every mouse move and every touch move stores a NaN as the divider
    position, whatever the pointer, the left edge and the position
    before; no guard skips the update. *)
Theorem dragging_over_zero_width_stores_nan (edge clientX : float)
    (others : list float) (s : State) :
  isDragging s = true ->
  is_nan (sliderPosition
            (step (MouseMove (Some {| left := edge; width := 0 |}) clientX) s))
  = true
  /\ is_nan (sliderPosition
               (step (TouchMove (Some {| left := edge; width := 0 |})
                        (clientX :: others)) s))
     = true.
Proof.
  intros Hd. simpl. unfold handleMouseMove, handleTouchMove. rewrite Hd.
  split; apply zero_width_always_nan.
Qed.

Lemma dragging_over_zero_width_stores_nan_witness :
  is_nan (sliderPosition
            (step (MouseMove (Some {| left := 12; width := 0 |}) 40)
               (handleMouseDown CompareSlider.initialState)))
  = true.
Proof.
  apply (@dragging_over_zero_width_stores_nan 12 40 []
           (handleMouseDown CompareSlider.initialState) eq_refl).
Defined.

End Ends.

(** ** App: the identifiers of turns *)






(** ** App: what a click on an enabled control does, and what changes the render *)

(** X23. The guard of [handleSendMessage] and the [disabled] condition
    of the send button agree: when the button is rendered and enabled, a
    click is never a no-op and never takes the branch for a missing
    image.  It appends the user's turn with the draft as typed, clears
    the draft, raises [isChatLoading], sends the draft to the advisor
    and suspends with the current [originalImage] captured. *)
Theorem enabled_send_starts_a_chat (w : World) (now now' : N) :
  offered (SendClicked now now') w = true ->
  exists img,
    originalImage (ui w) = Some img
    /\ pending (handleSendMessage now now' w) = pending w ++ [AwaitAdvisor img]
    /\ chatHistory (ui (handleSendMessage now now' w))
       = chatHistory (ui w) ++ [say (toString now) user (chatInput (ui w))]
    /\ chatInput (ui (handleSendMessage now now' w)) = []
    /\ isChatLoading (ui (handleSendMessage now now' w)) = true
    /\ exists before,
         calls (handleSendMessage now now' w)
         = before ++ [ChatSendMessage (chatInput (ui w))].
Proof.
  simpl. unfold sendButtonDisabled. intros Ho.
  apply andb_prop in Ho. destruct Ho as [Hi Hd].
  apply negb_true_iff in Hd.
  apply orb_false_elim in Hd. destruct Hd as [Hd _].
  apply orb_false_elim in Hd. destruct Hd as [Ht _].
  apply negb_false_iff in Ht.
  destruct (activeImage w) as [img |] eqn:Ea.
  - exists img. destruct (activeImage_some _ Ea) as [Eo _].
    split; [exact Eo |].
    destruct (message_sent w now now' Ht Ea) as (Hp & Hu & _).
    rewrite Hp, Hu. repeat split.
    rewrite (handleSendMessage_session w now now' Ht Ea).
    unfold sendMessageToAdvisor, suspend, emit. simpl.
    eexists. reflexivity.
  - apply activeImage_hasImage in Ea. congruence.
Qed.

Lemma enabled_send_starts_a_chat_witness :
  exists img,
    originalImage (ui (setChatInput Samples.blueWalls Samples.sessionA))
    = Some img
    /\ pending (handleSendMessage 1 1
                  (setChatInput Samples.blueWalls Samples.sessionA))
       = [] ++ [AwaitAdvisor img].
Proof.
  destruct (@enabled_send_starts_a_chat
              (setChatInput Samples.blueWalls Samples.sessionA) 1 1 eq_refl)
    as (img & O & P & _).
  exists img. split; assumption.
Defined.

(** X24. Only two things change [generatedImage]: the arrival of a newly
    read file, which clears it, and an image request that resolves with
    an image, which sets it to that image.  No click, no keystroke, no
    "Start Over", no answer of the advisor and no failure changes it. *)
Theorem render_changes_only_by_upload_or_image (e : Event) (w w' : World) :
  step e w = Some w' ->
  generatedImage (ui w') <> generatedImage (ui w) ->
  (exists i img now,
      e = Settled i (ReaderLoaded img) now /\ generatedImage (ui w') = None)
  \/ (exists i r now url,
      e = Settled i (ContentSettled r) now
      /\ generateReimaginedImage_settle r = inr url
      /\ generatedImage (ui w') = Some url).
Proof.
  destruct e as [file | | v | style now | now now' | now now' | i v now];
    simpl.
  - intros [= <-] H. exfalso. apply H.
    unfold handleFileUpload. destruct file; reflexivity.
  - intros [= <-] H. exfalso. apply H. reflexivity.
  - intros [= <-] H. exfalso. apply H. reflexivity.
  - intros [= <-] H. exfalso. apply H.
    apply generatedImage_handleStyleSelect.
  - intros [= <-] H. exfalso. apply H.
    unfold handleSendMessage.
    destruct (negb (truthy (trim (chatInput (ui w))))); [reflexivity |].
    destruct (activeImage w); [| reflexivity].
    unfold sendMessageToAdvisor. simpl. destruct (chatSession w); reflexivity.
  - intros [= <-] H. exfalso. apply H.
    unfold handleSendMessage.
    destruct (negb (truthy (trim (chatInput (ui w))))); [reflexivity |].
    destruct (activeImage w); [| reflexivity].
    unfold sendMessageToAdvisor. simpl. destruct (chatSession w); reflexivity.
  - destruct (nth_error (pending w) i) as [p |]; [| discriminate].
    destruct p as [| style | c |], v as [res | | r | r];
      simpl; try discriminate; intros [= <-] H.
    + left. exists i, res, now. split; reflexivity.
    + exfalso. apply H. reflexivity.
    + unfold handleStyleSelect_resume in *.
      destruct (generateReimaginedImage_settle r) as [err | url] eqn:Er.
      * exfalso. apply H. reflexivity.
      * right. exists i, r, now, url. repeat split. exact Er.
    + exfalso. apply H.
      unfold handleSendMessage_resume, chat_text.
      destruct (sendMessageToAdvisor_settle r) as [err | reply];
        [reflexivity |].
      destruct (toolCall reply) as [tc |].
      * destruct (jstr_eqb (tc_name tc) (lit "updateRoomDesign")).
        -- destruct (tc_args tc); reflexivity.
        -- destruct (cr_text reply) as [t |]; [destruct (truthy t) |];
             reflexivity.
      * destruct (cr_text reply) as [t |]; [destruct (truthy t) |];
          reflexivity.
    + unfold handleSendMessage_image in *.
      destruct (generateReimaginedImage_settle r) as [err | url] eqn:Er.
      * exfalso. apply H. reflexivity.
      * right. exists i, r, now, url. repeat split. exact Er.
Qed.

Lemma render_changes_only_by_upload_or_image_witness :
  (exists i img now,
      Settled 0 (ReaderLoaded Samples.imageC) 9
      = Settled i (ReaderLoaded img) now
      /\ generatedImage
           (ui (reader_onload Samples.imageC
                  (take 0 (handleFileUpload true Samples.sessionA)))) = None)
  \/ (exists i r now url,
      Settled 0 (ReaderLoaded Samples.imageC) 9
      = Settled i (ContentSettled r) now
      /\ generateReimaginedImage_settle r = inr url
      /\ generatedImage
           (ui (reader_onload Samples.imageC
                  (take 0 (handleFileUpload true Samples.sessionA))))
         = Some url).
Proof.
  apply (@render_changes_only_by_upload_or_image
           (Settled 0 (ReaderLoaded Samples.imageC) 9)
           (handleFileUpload true Samples.sessionA)).
  - reflexivity.
  - discriminate.
Defined.
